(** * MMDGLM2: the forgetting-samples MMD trainer

    A shallow embedding of [gglm/glm/mmdglm_forgetting_samples.py].

    Conventions of the embedding.
    - A float64 is a real number; the results of [torch.log] and of a
      division are values of [fval], the reals extended with one element
      [NonFinite] that stands for [+inf], [-inf] and [nan].  Rounding,
      overflow and underflow are outside the model.
    - A tensor is a nested list in the index order of the source: a rate or
      a spike mask is [time][trial], a design matrix is
      [time][trial][basis], a feature matrix is [feature][trial].  A tensor
      without rows carries no size for its other axes.
    - A Python exception is a value [Raise e] of the error monad [res].
    - The sampler, the feature map, the kernel, the optimizer, autograd and
      the metrics callback are collaborators of the class; the training loop
      receives what they return through a record [Env]. *)

From Stdlib Require Import Reals Lra Lia ZArith List String.
From stdpp Require Import gmap strings list.
Import ListNotations.

Local Open Scope R_scope.

(** ** Exceptions and the error monad *)

Inductive exn : Set :=
| IndexError
| ZeroDivisionError
| KeyError
| UnboundLocalError
| RuntimeError
| ValueError
| TypeError.

Inductive res (A : Type) : Type :=
| Ok (a : A)
| Raise (e : exn).

Arguments Ok {A} a.
Arguments Raise {A} e.

#[global] Instance res_ret : MRet res := λ A a, Ok a.
#[global] Instance res_bind : MBind res :=
  λ A B f m, match m with Ok a => f a | Raise e => Raise e end.

(** ** Floating values: a real or a non-finite value *)

Inductive fval : Type :=
| Fin (x : R)
| NonFinite.

Definition flift2 (f : R → R → R) (a b : fval) : fval :=
  match a, b with
  | Fin x, Fin y => Fin (f x y)
  | _, _ => NonFinite
  end.

Definition fadd : fval → fval → fval := flift2 Rplus.
Definition fsub : fval → fval → fval := flift2 Rminus.
Definition fmul : fval → fval → fval := flift2 Rmult.

Definition fneg (a : fval) : fval :=
  match a with Fin x => Fin (- x) | NonFinite => NonFinite end.

(** [torch.log]: [-inf] at 0 and [nan] below. *)
Definition flog (x : R) : fval :=
  if Rlt_dec 0 x then Fin (ln x) else NonFinite.

(** Division of a tensor entry by a number: [inf] or [nan] when the divisor
    is zero, no exception. *)
Definition fdiv (a : fval) (d : R) : fval :=
  if Req_dec_T d 0 then NonFinite
  else match a with Fin x => Fin (x / d) | NonFinite => NonFinite end.

(** Division of two Python numbers raises on a zero divisor. *)
Definition pydiv (x : R) (d : Z) : res R :=
  if (d =? 0)%Z then Raise ZeroDivisionError else Ok (x / IZR d).

(** ** Tensors *)

Abbreviation vec := (list R).
Abbreviation mat := (list (list R)).
Abbreviation tensor3 := (list (list (list R))).
Abbreviation bmat := (list (list bool)).
Abbreviation fvec := (list fval).
Abbreviation fmat := (list (list fval)).

(** [mask.double()] on one entry. *)
Definition double (b : bool) : R := if b then 1 else 0.

(** Elementwise operation on one axis with torch's broadcasting rule: the
    sizes match, or one of them is 1; anything else is a RuntimeError. *)
Definition bzip {A B C : Type} (f : A → B → res C) (a : list A) (b : list B)
  : res (list C) :=
  if decide (length a = length b) then mapM (λ p, f p.1 p.2) (zip a b)
  else match a, b with
       | [x], _ => mapM (f x) b
       | _, [y] => mapM (λ x, f x y) a
       | _, _ => Raise RuntimeError
       end.

Arguments bzip : simpl never.

(** The same on two axes. *)
Definition bzip2 {A B C : Type} (f : A → B → C)
    (a : list (list A)) (b : list (list B)) : res (list (list C)) :=
  bzip (bzip (λ x y, Ok (f x y))) a b.

Definition rsum (l : vec) : R := foldr Rplus 0 l.
Definition fsum (l : fvec) : fval := foldr fadd (Fin 0) l.

(** [torch.sum(m)] over every entry. *)
Definition tsum (m : mat) : R := rsum (concat m).
Definition ftsum (m : fmat) : fval := fsum (concat m).

(** [torch.sum(m, 1)]: one sum per row. *)
Definition sum_axis1 (m : mat) : vec := rsum <$> m.
Definition fsum_axis1 (m : fmat) : fvec := fsum <$> m.

(** Transposition of a matrix with [ncols] columns. *)
Definition transpose {A : Type} (ncols : nat) (m : list (list A))
  : list (list A) :=
  (λ k, omap (λ row, row !! k) m) <$> seq 0 ncols.

Definition ncols {A : Type} (m : list (list A)) : nat :=
  match m with [] => 0%nat | row :: _ => length row end.

(** [torch.sum(m, 0)]: one sum per column. *)
Definition sum_axis0 (m : mat) : vec := rsum <$> transpose (ncols m) m.
Definition fsum_axis0 (m : fmat) : fvec := fsum <$> transpose (ncols m) m.

(** ** The nonlinearities: [dic_nonlinearities] *)

Inductive non_linearity : Set :=
| nl_exp
| nl_log_exp.

Definition dic_nonlinearities (nl : non_linearity) (x : R) : R :=
  match nl with
  | nl_exp => exp x
  | nl_log_exp => ln (1 + exp x)
  end.

(** ** The model object *)

Record MMDGLM2 : Type := {
  non_linearity_name : non_linearity;
  b : R;
  kappa_coefs : option vec;
  eta_coefs : option vec
}.

Definition non_linearity_torch (self : MMDGLM2) : R → R :=
  dic_nonlinearities (non_linearity_name self).

(** [get_params]: the bias, then the kappa and the eta coefficients. *)
Definition get_params (self : MMDGLM2) : vec :=
  [b self] ++ default [] (kappa_coefs self) ++ default [] (eta_coefs self).

(** [torch.einsum('tka,a->tk', X, theta)]. *)
Definition dot (x theta : vec) : res R :=
  p ← bzip (λ a c, Ok (a * c)) x theta; Ok (rsum p).

Definition einsum_tka_a (X : tensor3) (theta : vec) : res mat :=
  mapM (mapM (λ x, dot x theta)) X.

(** The rate of [forward]: lines 46-47. *)
Definition rate (self : MMDGLM2) (X : tensor3) : res mat :=
  u ← einsum_tka_a X (get_params self);
  Ok (fmap (M:=list) (fmap (M:=list) (non_linearity_torch self)) u).

(** ** [_neg_log_likelihood] *)

(** Lines 68-69, on the rate [r_dc] of line 67. *)
Definition nll_of_rate (dt : R) (r_dc : mat) (mask_spikes : bmat) : res fval :=
  let log_term := fmap (M:=list) (fmap (M:=list) (λ r, flog (1 - exp (- dt * r)))) r_dc in
  spiking ← bzip2 (λ l s, fmul l (Fin (double s))) log_term mask_spikes;
  silent ← bzip2 (λ r s, r * (1 - double s)) r_dc mask_spikes;
  Ok (fneg (fsub (ftsum spiking) (Fin (dt * tsum silent)))).

Definition _neg_log_likelihood (self : MMDGLM2) (dt : R) (mask_spikes : bmat)
    (X_dc : tensor3) : res fval :=
  r_dc ← rate self X_dc;
  nll_of_rate dt r_dc mask_spikes.

(** ** [_score] *)

(** Division of two tensor entries. *)
Definition fdiv_entry (x d : R) : fval := fdiv (Fin x) d.

(** [torch.einsum('tka,tk->ka', X, W)]. *)
Definition einsum_tka_tk (X : tensor3) (W : fmat) : res fmat :=
  P ← bzip (bzip (λ xa w, Ok (fmap (M:=list) (λ x, fmul (Fin x) w) xa))) X W;
  match P with
  | [] => Ok []
  | P0 :: rest => Ok (foldl (zip_with (zip_with fadd)) P0 rest)
  end.

Definition _score (self : MMDGLM2) (dt : R) (mask_spikes : bmat) (X : tensor3)
  : res fmat :=
  r ← rate self X;
  let ratio := fmap (M:=list) (fmap (M:=list) (λ x, fdiv_entry x (exp (x * dt) - 1))) r in
  spiking ← bzip2 (λ q s, fmul q (Fin (double s))) ratio mask_spikes;
  silent ← bzip2 (λ x s, Fin (x * (1 - double s))) r mask_spikes;
  e1 ← einsum_tka_tk X spiking;
  e2 ← einsum_tka_tk X silent;
  bzip2 (λ p q, fsub (fmul (Fin dt) p) (fmul (Fin dt) q)) e1 e2.

(** [torch.mean(scores, dim=0)] and [torch.var(scores, dim=0)] (the
    unbiased variance, divisor one less than the number of rows). *)
Definition fmean (l : fvec) : fval := fdiv (fsum l) (INR (length l)).

Definition fvar (l : fvec) : fval :=
  let m := fmean l in
  match l with
  | [] => NonFinite
  | _ => fdiv (fsum ((λ x, fmul (fsub x m) (fsub x m)) <$> l))
           (INR (length l) - 1)
  end.

Definition mean_dim0 (m : fmat) : fvec := fmean <$> transpose (ncols m) m.
Definition var_dim0 (m : fmat) : fvec := fvar <$> transpose (ncols m) m.

(** ** The history buffer: lines 116-125 *)

(** [l.pop(0)], keeping the rest. *)
Definition pop0 {A : Type} (l : list A) : res (list A) :=
  match l with
  | [] => Raise IndexError
  | _ :: l' => Ok l'
  end.

Definition buffer_update {A B : Type} (n_iterations_store : Z)
    (r_fr_list : list A) (mask_spikes_fr_list : list B)
    (_r_fr : A) (_mask_spikes_fr : B) : res (list A * list B) :=
  popped ← (if (n_iterations_store <=? Z.of_nat (length mask_spikes_fr_list))%Z
            then rl ← pop0 r_fr_list;
                 ml ← pop0 mask_spikes_fr_list;
                 Ok (rl, ml)
            else Ok (r_fr_list, mask_spikes_fr_list));
  Ok (popped.1 ++ [_r_fr], popped.2 ++ [_mask_spikes_fr]).

(** [torch.cat(ts, 1)]: the tensors side by side along the trial axis. *)
Definition hcat {A : Type} (a c : list (list A)) : res (list (list A)) :=
  if decide (length a = length c) then Ok (zip_with app a c)
  else Raise RuntimeError.

Fixpoint cat_onto {A : Type} (acc : list (list A)) (ts : list (list (list A)))
  : res (list (list A)) :=
  match ts with
  | [] => Ok acc
  | t :: ts' => a ← hcat acc t; cat_onto a ts'
  end.

Definition torch_cat1 {A : Type} (ts : list (list (list A)))
  : res (list (list A)) :=
  match ts with
  | [] => Raise RuntimeError
  | t :: ts' => cat_onto t ts'
  end.

(** ** The surrogate: lines 127-157 *)

Definition eps : R := 1e-24.

Definition log_proba (dt : R) (r_fr : mat) (mask_spikes_fr : bmat) : res fvec :=
  let log_term := fmap (M:=list) (fmap (M:=list) (λ r, flog (1 - exp (- dt * r) + eps))) r_fr in
  spiking ← bzip2 (λ l s, fmul l (Fin (double s))) log_term mask_spikes_fr;
  silent ← bzip2 (λ r s, r * (1 - double s)) r_fr mask_spikes_fr;
  bzip (λ a c, Ok (fsub a (Fin (dt * c)))) (fsum_axis0 spiking) (sum_axis0 silent).

(** Line 132: [np.repeat(beta**np.arange(m), n_batch_fr)]; the entry of
    buffer index [i] is repeated over the trials of that entry. *)
Definition weights (beta : R) (m : nat) (n_batch_fr : Z) : res vec :=
  if (n_batch_fr <? 0)%Z then Raise ValueError
  else Ok (concat ((λ i, replicate (Z.to_nat n_batch_fr) (beta ^ i)) <$> seq 0 m)).

(** [v[None, :]] and [v[:, None]]. *)
Definition as_row {A : Type} (v : list A) : list (list A) := [v].
Definition as_col {A : Type} (v : list A) : list (list A) := (λ x, [x]) <$> v.

(** Lines 132-133: the features of the concatenated batch times the
    weights, [m] being the number of buffered entries. *)
Definition weighted_features (beta : R) (m : nat) (n_batch_fr : Z)
    (phi_fr : mat) : res mat :=
  w ← weights beta m n_batch_fr;
  bzip2 Rmult phi_fr (as_row w).

(** The denominator of the unbiased estimators. *)
Definition unbiased_denominator (n_batch_fr : Z) : Z :=
  (n_batch_fr * (n_batch_fr - 1))%Z.

(** Lines 136-140. *)
Definition mmd_surr_phi_unbiased (n_d n_batch_fr : Z) (sum_phi_d : vec)
    (phi_fr : mat) (log_proba : fvec) : res fval :=
  log_proba_phi ← bzip2 (λ l p, fmul l (Fin p)) (as_row log_proba) phi_fr;
  let sum_log_proba_phi_fr := fsum_axis1 log_proba_phi in
  let sum_phi_fr := sum_axis1 phi_fr in
  cross ← bzip (λ a c, Ok (fmul a (Fin c))) sum_log_proba_phi_fr sum_phi_fr;
  diag ← bzip2 (λ a c, fmul a (Fin c)) log_proba_phi phi_fr;
  let norm2_fr :=
    fdiv (fsub (fsum cross) (ftsum diag)) (IZR (unbiased_denominator n_batch_fr)) in
  c ← pydiv 2 (n_d * n_batch_fr)%Z;
  data ← bzip (λ a l, Ok (fmul (Fin a) l)) sum_phi_d sum_log_proba_phi_fr;
  Ok (fsub (fmul (Fin 2) norm2_fr) (fmul (Fin c) (fsum data))).

(** [torch.mean(m, 1)] and [torch.mean(m)]. *)
Definition mean_axis1 (m : fmat) : fvec := fmean <$> m.
Definition tmean (m : fmat) : fval := fmean (concat m).

Definition to_fmat (m : mat) : fmat := fmap (M:=list) (fmap (M:=list) Fin) m.

(** Line 142. *)
Definition mmd_surr_phi_biased (phi_d phi_fr : mat) (log_proba : fvec)
  : res fval :=
  log_proba_phi ← bzip2 (λ l p, fmul l (Fin p)) (as_row log_proba) phi_fr;
  diff ← bzip (λ a c, Ok (fsub a c))
         (mean_axis1 (to_fmat phi_d)) (mean_axis1 (to_fmat phi_fr));
  prod ← bzip (λ a c, Ok (fmul a c)) diff (mean_axis1 log_proba_phi);
  Ok (fmul (Fin (-2)) (fsum prod)).

(** [g.fill_diagonal_(0)]. *)
Definition fill_diagonal_0 (g : mat) : mat := imap (λ i row, <[i:=0]> row) g.

(** Lines 152-154. *)
Definition mmd_surr_kernel_unbiased (n_batch_fr : Z)
    (gramian_fr_fr gramian_d_fr : mat) (log_proba : fvec) : res fval :=
  ff ← bzip2 (λ l g, fmul l (Fin g)) (as_col log_proba) gramian_fr_fr;
  df ← bzip2 (λ l g, fmul l (Fin g)) (as_row log_proba) gramian_d_fr;
  Ok (fsub (fdiv (fmul (Fin 2) (ftsum ff)) (IZR (unbiased_denominator n_batch_fr)))
           (fmul (Fin 2) (tmean df))).

(** Lines 156-157. *)
Definition mmd_surr_kernel_biased (gramian_fr_fr gramian_d_fr : mat)
    (log_proba : fvec) : res fval :=
  pair_sum ← bzip2 fadd (as_col log_proba) (as_row log_proba);
  ff ← bzip2 (λ l g, fmul l (Fin g)) pair_sum gramian_fr_fr;
  df ← bzip2 (λ l g, fmul l (Fin g)) (as_row log_proba) gramian_d_fr;
  Ok (fsub (tmean ff) (fmul (Fin 2) (tmean df))).

(** ** The training loop: [train] *)

Record Config : Type := {
  log_likelihood : bool;
  lam_mmd : R;
  biased : bool;
  has_scheduler : bool;
  num_epochs : Z;
  n_batch_fr : Z;
  control_variates : bool;
  clip : option R;
  n_metrics : Z;
  n_iterations_store : Z;
  beta : R
}.

(** What the collaborators return.  [model_at e] is the model object at the
    start of epoch [e] (as the optimizer and [set_params] left it) and
    [sample_at e] the spike mask drawn by [self.sample] in epoch [e] with the
    design matrix [objective_kwargs] builds from it. *)
Record Env : Type := {
  dt : R;
  mask_spikes : bmat;
  X_dc : tensor3;
  phi : option (bmat → mat);
  kernel : option (bmat → bmat → mat);
  metrics : option (MMDGLM2 → bmat → bmat → gmap string fval);
  _mmd_from_gramians : mat → mat → mat → bool → fval;
  _mmd_from_features : mat → mat → bool → fval;
  model_at : nat → MMDGLM2;
  sample_at : nat → bmat * tensor3
}.

(** The steps of an epoch, in the vocabulary of the specification's state
    machine, with [zero_grad] and the scheduler step. *)
Inductive Step : Set :=
| ZeroGrad
| SampleStep
| BufferUpdate
| LossAssembly
| Backprop
| ControlVariateInjection
| GradientClip
| MetricsRecord
| OptimizerStep
| SchedulerStep
| ParamSync.

(** The variables that live across epochs, with the log [trace] of the
    steps taken so far. *)
Record State : Type := {
  r_fr_list : list mat;
  mask_spikes_fr_list : list bmat;
  loss : list fval;
  nll : list fval;
  metrics_list : option (gmap string (list fval));
  trace : list Step
}.

Definition init_state : State :=
  {| r_fr_list := []; mask_spikes_fr_list := []; loss := []; nll := [];
     metrics_list := None; trace := [] |}.

(** [forward]: the sampled mask, its design matrix and the rate recomputed
    from it. *)
Definition forward (self : MMDGLM2) (sampled : bmat * tensor3)
  : res (mat * bmat * tensor3) :=
  r_fr ← rate self sampled.2;
  Ok (r_fr, sampled.1, sampled.2).

(** Lines 94-102: [kernel] is called when [phi] is None. *)
Definition prelude (env : Env) : res unit :=
  match phi env, kernel env with
  | None, None => Raise TypeError
  | _, _ => Ok ()
  end.

Definition n_d (env : Env) : Z := Z.of_nat (ncols (mask_spikes env)).

(** The locals that the two similarity representations bind. *)
Inductive SimLocals : Type :=
| FeatLocals (phi_d phi_fr : mat)
| GramLocals (gramian_d_d gramian_fr_fr gramian_d_fr : mat).

(** Lines 130-157: the surrogate and the locals it leaves behind. *)
Definition surrogate (env : Env) (cfg : Config) (m : nat)
    (mask_spikes_fr : bmat) (lp : fvec) : res (fval * SimLocals) :=
  match phi env with
  | Some p =>
      let phi_d := p (mask_spikes env) in
      phi_fr ← weighted_features (beta cfg) m (n_batch_fr cfg)
                  (p mask_spikes_fr);
      mmd_surr ← (if negb (biased cfg)
                  then mmd_surr_phi_unbiased (n_d env) (n_batch_fr cfg)
                         (sum_axis1 phi_d) phi_fr lp
                  else mmd_surr_phi_biased phi_d phi_fr lp);
      Ok (mmd_surr, FeatLocals phi_d phi_fr)
  | None =>
      match kernel env with
      | None => Raise TypeError
      | Some k =>
          let gramian_d_d := k (mask_spikes env) (mask_spikes env) in
          let gramian_fr_fr := k mask_spikes_fr mask_spikes_fr in
          let gramian_d_fr := k (mask_spikes env) mask_spikes_fr in
          if negb (biased cfg)
          then let zeroed := fill_diagonal_0 gramian_fr_fr in
               mmd_surr ← mmd_surr_kernel_unbiased (n_batch_fr cfg)
                            zeroed gramian_d_fr lp;
               Ok (mmd_surr, GramLocals gramian_d_d zeroed gramian_d_fr)
          else mmd_surr ← mmd_surr_kernel_biased gramian_fr_fr gramian_d_fr lp;
               Ok (mmd_surr, GramLocals gramian_d_d gramian_fr_fr gramian_d_fr)
      end
  end.

(** Lines 171-188.  The mean and the variance of the scores enter the
    coefficient [a]; [a] and the gradients that [param.backward] adds live in
    autograd and are not part of the state.  Line 180 reads the gramians,
    which only the kernel branch and line 177 bind. *)
Definition control_variate (env : Env) (self : MMDGLM2)
    (mask_spikes_fr : bmat) (X_fr : tensor3) (loc : SimLocals)
  : res (fvec * fvec) :=
  scores ← _score self (dt env) mask_spikes_fr X_fr;
  let mean_score := mean_dim0 scores in
  let var_score := var_dim0 scores in
  match kernel env, loc with
  | Some _, FeatLocals _ _ => Raise UnboundLocalError
  | _, _ => Ok (mean_score, var_score)
  end.

(** [epoch % n_metrics == 0]. *)
Definition metrics_due (epoch : nat) (n_metrics : Z) : res bool :=
  if (n_metrics =? 0)%Z then Raise ZeroDivisionError
  else Ok (Z.of_nat epoch mod n_metrics =? 0)%Z.

(** [row[-n:]]: the last [n] entries, all of them when [n] is 0 and the
    entries from index [-n] on when [n] is negative. *)
Definition last_cols {A : Type} (n : Z) (row : list A) : list A :=
  if (n =? 0)%Z then row
  else if (n <? 0)%Z then drop (Z.to_nat (- n)) row
  else drop (length row - Z.to_nat n) row.

(** Lines 234-235: [metrics_list[key].append(val)] for every item. *)
Fixpoint append_items (items : list (string * fval))
    (ml : option (gmap string (list fval)))
  : res (option (gmap string (list fval))) :=
  match items with
  | [] => Ok ml
  | (key, val) :: items' =>
      match ml with
      | None => Raise UnboundLocalError
      | Some d =>
          match d !! key with
          | None => Raise KeyError
          | Some vals => append_items items' (Some (<[key := vals ++ [val]]> d))
          end
      end
  end.

(** Lines 193-235. *)
Definition metrics_record (env : Env) (cfg : Config) (epoch : nat)
    (self : MMDGLM2) (mask_spikes_fr : bmat) (loc : SimLocals)
    (ml : option (gmap string (list fval)))
  : res (option (gmap string (list fval))) :=
  let _metrics := match metrics env with
                  | Some f => f self (mask_spikes env) mask_spikes_fr
                  | None => ∅
                  end in
  mmd ← match kernel env, loc with
        | Some _, GramLocals gramian_d_d gramian_fr_fr gramian_d_fr =>
            Ok (_mmd_from_gramians env gramian_d_d gramian_fr_fr gramian_d_fr
                  (biased cfg))
        | Some _, FeatLocals _ _ => Raise UnboundLocalError
        | None, FeatLocals phi_d phi_fr =>
            let _phi_fr := last_cols (n_batch_fr cfg) <$> phi_fr in
            Ok (_mmd_from_features env phi_d _phi_fr (biased cfg))
        | None, GramLocals _ _ _ => Raise TypeError
        end;
  let _metrics := <["mmd"%string := mmd]> _metrics in
  if decide (epoch = 0%nat) then Ok (Some ((λ val, [val]) <$> _metrics))
  else append_items (map_to_list _metrics) ml.

(** One pass of the loop body, lines 108-244.  [verbose] printing and the
    [retain_graph] argument of [backward] leave no mark on the state. *)
Definition epoch_body (env : Env) (cfg : Config) (epoch : nat) (st : State)
  : res State :=
  let self := model_at env epoch in
  let tr := trace st ++ [ZeroGrad] in
  fwd ← forward self (sample_at env epoch);
  let '(_r_fr, _mask_spikes_fr, X_fr) := fwd in
  let tr := tr ++ [SampleStep] in
  bufs ← buffer_update (n_iterations_store cfg)
            (r_fr_list st) (mask_spikes_fr_list st) _r_fr _mask_spikes_fr;
  r_fr ← torch_cat1 bufs.1;
  mask_spikes_fr ← torch_cat1 bufs.2;
  let tr := tr ++ [BufferUpdate] in
  lp ← log_proba (dt env) r_fr mask_spikes_fr;
  sur ← surrogate env cfg (length bufs.2) mask_spikes_fr lp;
  let _loss := fmul (Fin (lam_mmd cfg)) sur.1 in
  assembled ← (if log_likelihood cfg
               then _nll ← _neg_log_likelihood self (dt env)
                             (mask_spikes env) (X_dc env);
                    Ok (fadd _loss _nll, nll st ++ [_nll])
               else Ok (_loss, nll st));
  let tr := tr ++ [LossAssembly] in
  let tr := tr ++ [Backprop] in
  tr ← (if control_variates cfg
        then _ ← control_variate env self mask_spikes_fr X_fr sur.2;
             Ok (tr ++ [ControlVariateInjection])
        else Ok tr);
  let tr := match clip cfg with
            | Some _ => tr ++ [GradientClip]
            | None => tr
            end in
  due ← metrics_due epoch (n_metrics cfg);
  recorded ← (if due : bool
              then ml ← metrics_record env cfg epoch self mask_spikes_fr sur.2
                          (metrics_list st);
                   Ok (ml, tr ++ [MetricsRecord])
              else Ok (metrics_list st, tr));
  let tr := recorded.2 ++ [OptimizerStep] in
  let tr := if has_scheduler cfg then tr ++ [SchedulerStep] else tr in
  let tr := tr ++ [ParamSync] in
  Ok {| r_fr_list := bufs.1;
        mask_spikes_fr_list := bufs.2;
        loss := loss st ++ [assembled.1];
        nll := assembled.2;
        metrics_list := recorded.1;
        trace := tr |}.

(** The arguments that line 172 hands to [_score] in the pass of epoch
    [epoch] from state [st]: the mask of line 125 and the design matrix of
    line 114. *)
Definition score_arguments (env : Env) (cfg : Config) (epoch : nat)
    (st : State) : res (bmat * tensor3) :=
  fwd ← forward (model_at env epoch) (sample_at env epoch);
  let '(_r_fr, _mask_spikes_fr, X_fr) := fwd in
  bufs ← buffer_update (n_iterations_store cfg)
            (r_fr_list st) (mask_spikes_fr_list st) _r_fr _mask_spikes_fr;
  mask_spikes_fr ← torch_cat1 bufs.2;
  Ok (mask_spikes_fr, X_fr).

(** The state after the first [k] epochs. *)
Fixpoint run_epochs (env : Env) (cfg : Config) (k : nat) : res State :=
  match k with
  | O => Ok init_state
  | S k' => st ← run_epochs env cfg k'; epoch_body env cfg k' st
  end.

(** [train]: the loop over [range(num_epochs)], then line 249. *)
Definition train (env : Env) (cfg : Config)
  : res (list fval * list fval * gmap string (list fval)) :=
  _ ← prelude env;
  st ← run_epochs env cfg (Z.to_nat (num_epochs cfg));
  match metrics_list st with
  | None => Raise UnboundLocalError
  | Some ml => Ok (loss st, nll st, ml)
  end.

(** ** Pushing a sequence of minibatches into the buffer *)

Fixpoint push_all {A B : Type} (n_iterations_store : Z)
    (entries : list (A * B)) (r_fr_list : list A) (mask_spikes_fr_list : list B)
  : res (list A * list B) :=
  match entries with
  | [] => Ok (r_fr_list, mask_spikes_fr_list)
  | e :: entries' =>
      bufs ← buffer_update n_iterations_store r_fr_list mask_spikes_fr_list
               e.1 e.2;
      push_all n_iterations_store entries' bufs.1 bufs.2
  end.

(** ** The negative log-likelihood in the words of the specification *)

Definition bigsum (n : nat) (f : nat → R) : R := rsum (f <$> seq 0 n).


Definition spike_at (mask : bmat) (t k : nat) : R :=
  double (nth k (nth t mask []) false).



Definition has_shape2 {A : Type} (T K : nat) (m : list (list A)) : Prop :=
  length m = T ∧ Forall (λ row, length row = K) m.


(** ** The order of the steps of an epoch *)

(** The states of the specification's machine. *)
Definition in_spec_machine (s : Step) : bool :=
  match s with
  | ZeroGrad | SchedulerStep => false
  | _ => true
  end.

Definition optional (c : bool) (s : Step) : list Step := if c then [s] else [].

(** The order the specification gives, metrics last. *)
Definition spec_epoch_order (cfg : Config) (recorded : bool) : list Step :=
  [SampleStep; BufferUpdate; LossAssembly; Backprop]
  ++ optional (control_variates cfg) ControlVariateInjection
  ++ optional (bool_decide (is_Some (clip cfg))) GradientClip
  ++ [OptimizerStep; ParamSync]
  ++ optional recorded MetricsRecord.

(** The order of the loop body, metrics before the optimizer step. *)
Definition code_epoch_order (cfg : Config) (recorded : bool) : list Step :=
  [SampleStep; BufferUpdate; LossAssembly; Backprop]
  ++ optional (control_variates cfg) ControlVariateInjection
  ++ optional (bool_decide (is_Some (clip cfg))) GradientClip
  ++ optional recorded MetricsRecord
  ++ [OptimizerStep; ParamSync].

(** Every step of one pass of the body, in the order of the source. *)
Definition body_steps (cfg : Config) (recorded : bool) : list Step :=
  [ZeroGrad; SampleStep; BufferUpdate; LossAssembly; Backprop]
  ++ optional (control_variates cfg) ControlVariateInjection
  ++ optional (bool_decide (is_Some (clip cfg))) GradientClip
  ++ optional recorded MetricsRecord
  ++ [OptimizerStep]
  ++ optional (has_scheduler cfg) SchedulerStep
  ++ [ParamSync].

(** The steps that one pass of the body adds to the trace. *)
Definition epoch_steps (st st' : State) : list Step :=
  drop (length (trace st)) (trace st').

(** The claimed order, for the pass of epoch [epoch] from state [st]. *)
Definition follows_spec_order (env : Env) (cfg : Config) (epoch : nat)
    (st : State) : Prop :=
  ∀ st', epoch_body env cfg epoch st = Ok st' →
    ∃ recorded, metrics_due epoch (n_metrics cfg) = Ok recorded ∧
      filter in_spec_machine (epoch_steps st st')
      = spec_epoch_order cfg recorded.

(** ** A small run: one time bin, one basis function, two trials *)

Definition model0 : MMDGLM2 :=
  {| non_linearity_name := nl_exp; b := 0; kappa_coefs := None;
     eta_coefs := None |}.

Definition ones_kernel (a c : bmat) : mat :=
  replicate (ncols a) (replicate (ncols c) 1).

Definition env0 : Env :=
  {| dt := 1;
     mask_spikes := [[true; false]];
     X_dc := [[[1]; [1]]];
     phi := None;
     kernel := Some ones_kernel;
     metrics := None;
     _mmd_from_gramians := λ _ _ _ _, Fin 0;
     _mmd_from_features := λ _ _ _, Fin 0;
     model_at := λ _, model0;
     sample_at := λ epoch, (match epoch with
                            | O => [[true; false]]
                            | S _ => [[false; true]]
                            end, [[[1]; [1]]]) |}.



Definition cfg0 : Config :=
  {| log_likelihood := false; lam_mmd := 1; biased := false;
     has_scheduler := false; num_epochs := 2; n_batch_fr := 2;
     control_variates := false; clip := None; n_metrics := 25;
     n_iterations_store := 1; beta := 1 |}.

(** The same run with a history of two minibatches and control variates. *)
Definition cfg_history (store : Z) (cv : bool) : Config :=
  {| log_likelihood := false; lam_mmd := 1; biased := false;
     has_scheduler := false; num_epochs := 2; n_batch_fr := 2;
     control_variates := cv; clip := None; n_metrics := 25;
     n_iterations_store := store; beta := 1 |}.

(** ** More small runs *)

(** A feature map: the spike trains themselves, one feature per time bin. *)
Definition spikes_as_features (mask : bmat) : mat :=
  fmap (M:=list) (fmap (M:=list) double) mask.

(** The small run in feature-map mode. *)
Definition env_phi : Env :=
  {| dt := 1;
     mask_spikes := [[true; false]];
     X_dc := [[[1]; [1]]];
     phi := Some spikes_as_features;
     kernel := None;
     metrics := None;
     _mmd_from_gramians := λ _ _ _ _, Fin 0;
     _mmd_from_features := λ _ _ _, Fin 0;
     model_at := λ _, model0;
     sample_at := λ epoch, (match epoch with
                            | O => [[true; false]]
                            | S _ => [[false; true]]
                            end, [[[1]; [1]]]) |}.

(** The small run with both similarity representations supplied. *)
Definition env_both : Env :=
  {| dt := 1;
     mask_spikes := [[true; false]];
     X_dc := [[[1]; [1]]];
     phi := Some spikes_as_features;
     kernel := Some ones_kernel;
     metrics := None;
     _mmd_from_gramians := λ _ _ _ _, Fin 0;
     _mmd_from_features := λ _ _ _, Fin 0;
     model_at := λ _, model0;
     sample_at := λ _, ([[true; false]], [[[1]; [1]]]) |}.

Definition cfg_of (store period batch : Z) (ll : bool) : Config :=
  {| log_likelihood := ll; lam_mmd := 1; biased := false;
     has_scheduler := false; num_epochs := 3; n_batch_fr := batch;
     control_variates := false; clip := None; n_metrics := period;
     n_iterations_store := store; beta := 1 |}.

(** ** Vocabulary for the metrics of a run *)

(** What the metrics callback returns ([{}] without a callback). *)
Definition callback_metrics (env : Env) (self : MMDGLM2) (mask_spikes_fr : bmat)
  : gmap string fval :=
  match metrics env with
  | Some f => f self (mask_spikes env) mask_spikes_fr
  | None => ∅
  end.

(** The number of epochs below [k] on which metrics are recorded. *)
Definition recorded_epochs (period : Z) (k : nat) : nat :=
  length (filter (λ epoch, (Z.of_nat epoch mod period = 0)%Z) (seq 0 k)).

(** Feature-map mode with a sampler that draws no trial. *)
Definition env_phi_empty : Env :=
  {| dt := 1;
     mask_spikes := [[true; false]];
     X_dc := [[[1]; [1]]];
     phi := Some spikes_as_features;
     kernel := None;
     metrics := None;
     _mmd_from_gramians := λ _ _ _ _, Fin 0;
     _mmd_from_features := λ _ _ _, Fin 0;
     model_at := λ _, model0;
     sample_at := λ _, ([[]], [[]]) |}.

(** ** The per-trial log-probability, in closed form *)

(** [Σ_t log(1 - exp(-dt·r_tk) + eps)·s_tk - dt·Σ_t r_tk·(1 - s_tk)]. *)
Definition log_proba_spec (dt : R) (T : nat) (r spikes : nat → nat → R)
    (k : nat) : R :=
  bigsum T (λ t, ln (1 - exp (- dt * r t k) + eps) * spikes t k)
  - dt * bigsum T (λ t, r t k * (1 - spikes t k)).

Definition entry_at (m : mat) (t k : nat) : R := nth k (nth t m []) 0.

(** ** Configurations that differ in one field *)



(** ** The score, in closed form *)


(** * Properties *)

(** ** The error monad and broadcasting on operands of equal shape *)

Lemma bind_Ok {A B : Type} (m : res A) (f : A → res B) (y : B) :
  m ≫= f = Ok y → ∃ x, m = Ok x ∧ f x = Ok y.
Proof. destruct m as [x|e]; simpl; [eauto | discriminate]. Qed.

Lemma mapM_pure {A B : Type} (f : A → B) (l : list A) :
  mapM (M:=res) (λ x, Ok (f x)) l = Ok (f <$> l).
Proof. induction l as [|x l IH]; simpl; [done|]. by rewrite IH. Qed.

Lemma bzip_same_length {A B C : Type} (f : A → B → C) (a : list A) (c : list B) :
  length a = length c →
  bzip (λ x y, Ok (f x y)) a c = Ok (zip_with f a c).
Proof.
  intros Hlen. unfold bzip. rewrite decide_True by done.
  rewrite (mapM_pure (λ p, f p.1 p.2)). f_equal.
  clear Hlen. revert c. induction a as [|x a IH]; intros [|y c]; simpl; [done..|].
  by rewrite IH.
Qed.

Lemma bzip2_same_shape {A B C : Type} (f : A → B → C) (T K : nat)
    (a : list (list A)) (c : list (list B)) :
  has_shape2 T K a → has_shape2 T K c →
  bzip2 f a c = Ok (zip_with (zip_with f) a c).
Proof.
  intros [Ha Hra] [Hc Hrc]. unfold bzip2. unfold bzip at 1.
  rewrite decide_True by congruence. clear Ha Hc.
  revert c Hrc. induction Hra as [|ra a Hlen _ IH]; intros c Hrc.
  - by destruct c.
  - destruct Hrc as [|rc c Hlen' Hrc]; [done|]. simpl.
    rewrite bzip_same_length by congruence. simpl.
    specialize (IH c Hrc). simpl in IH. by rewrite IH.
Qed.

(** ** Sums *)

Lemma bigsum_S (n : nat) (f : nat → R) :
  bigsum (S n) f = f 0%nat + bigsum n (λ i, f (S i)).
Proof.
  unfold bigsum. simpl. f_equal. rewrite <- fmap_S_seq.
  by rewrite <- list_fmap_compose.
Qed.

Lemma bigsum_ext (n : nat) (f g : nat → R) :
  (∀ i, (i < n)%nat → f i = g i) → bigsum n f = bigsum n g.
Proof.
  revert f g. induction n as [|n IH]; intros f g Hfg; [done|].
  rewrite !bigsum_S. f_equal; [apply Hfg; lia|].
  apply IH. intros i Hi. apply Hfg. lia.
Qed.

Lemma rsum_bigsum (l : vec) :
  rsum l = bigsum (length l) (λ i, nth i l 0).
Proof.
  induction l as [|x l IH]; [done|].
  simpl length. rewrite bigsum_S. simpl. by rewrite <- IH.
Qed.




Lemma fsum_Fin (l : vec) : fsum (Fin <$> l) = Fin (rsum l).
Proof.
  unfold fsum, rsum. induction l as [|x l IH]; csimpl; [done|]. by rewrite IH.
Qed.


Lemma nth_zip_with {A B C : Type} (f : A → B → C) (a : list A) (c : list B)
    (i : nat) (da : A) (dc : B) (d : C) :
  (i < length a)%nat → (i < length c)%nat →
  nth i (zip_with f a c) d = f (nth i a da) (nth i c dc).
Proof.
  revert c i. induction a as [|x a IH]; intros [|y c] [|i] Ha Hc;
    simpl in *; try lia; [done|]. apply IH; lia.
Qed.

Lemma shape2_row {A : Type} (T K : nat) (m : list (list A)) (t : nat) :
  has_shape2 T K m → (t < T)%nat → length (nth t m []) = K.
Proof.
  intros [HT HK] Ht.
  destruct (lookup_lt_is_Some_2 m t) as [row Hrow]; [lia|].
  rewrite (nth_lookup_Some _ _ _ _ Hrow).
  by eapply Forall_lookup_1 in HK.
Qed.

Lemma shape2_zip_with {A B C : Type} (f : A → B → C) (T K : nat)
    (a : list (list A)) (c : list (list B)) :
  has_shape2 T K a → has_shape2 T K c →
  has_shape2 T K (zip_with (zip_with f) a c).
Proof.
  intros [Ha Hra] [Hc Hrc]. split.
  - rewrite length_zip_with. lia.
  - clear Ha Hc. revert c Hrc.
    induction Hra as [|ra a Hlen _ IH]; intros c Hrc; [by destruct c|].
    destruct Hrc as [|rc c Hlen' Hrc]; [done|]. simpl. constructor.
    + rewrite length_zip_with. lia.
    + by apply IH.
Qed.

Lemma shape2_fmap {A B : Type} (f : A → B) (T K : nat) (m : list (list A)) :
  has_shape2 T K m → has_shape2 T K (fmap (M:=list) (fmap (M:=list) f) m).
Proof.
  intros [HT HK]. split; [by rewrite length_fmap|].
  apply Forall_fmap. eapply Forall_impl; [done|].
  intros row Hrow. simpl. by rewrite length_fmap.
Qed.

(** ** The rate *)


Lemma mapM_Forall_pure {A B : Type} (f : A → res B) (g : A → B) (l : list A) :
  Forall (λ x, f x = Ok (g x)) l → mapM f l = Ok (g <$> l).
Proof.
  induction 1 as [|x l Hx _ IH]; simpl; [done|]. rewrite Hx. simpl. by rewrite IH.
Qed.







(** ** The negative log-likelihood *)


Lemma flog_pos (x : R) : 0 < x → flog x = Fin (ln x).
Proof. intros Hx. unfold flog. by destruct (Rlt_dec 0 x). Qed.

Lemma flog_nonpos (x : R) : x <= 0 → flog x = NonFinite.
Proof. intros Hx. unfold flog. destruct (Rlt_dec 0 x); [lra|done]. Qed.








(** ** The epsilon under the logarithm *)

Lemma eps_pos : 0 < eps.
Proof. unfold eps. lra. Qed.

Lemma shape2_singleton {A : Type} (x : A) : has_shape2 1 1 [[x]].
Proof. split; [done|]. by repeat constructor. Qed.

(** C9.  In a bin with rate 0 and a spike, line 68 takes the logarithm of
    [1 - exp(0) = 0] and the negative log-likelihood is not finite, whatever
    the bin width; the surrogate's [log_proba] of line 127 takes the
    logarithm of [1e-24] on the same rate and mask and is finite. *)
Theorem nll_not_epsilon_guarded (dt : R) :
  nll_of_rate dt [[0]] [[true]] = Ok NonFinite
  ∧ ∃ x, log_proba dt [[0]] [[true]] = Ok [Fin x].
Proof.
  assert (Hz : 1 - exp (- dt * 0) = 0).
  { replace (- dt * 0) with 0 by lra. rewrite exp_0. lra. }
  split.
  - unfold nll_of_rate.
    rewrite !(bzip2_same_shape _ 1 1) by apply shape2_singleton.
    csimpl. rewrite Hz. by rewrite flog_nonpos by lra.
  - unfold log_proba.
    rewrite !(bzip2_same_shape _ 1 1) by apply shape2_singleton.
    csimpl. rewrite Hz, flog_pos by (pose proof eps_pos; lra).
    unfold fsum_axis0, sum_axis0, transpose. csimpl.
    rewrite bzip_same_length by done. csimpl. eauto.
Qed.

(** ** One pass of the loop body *)

Lemma epoch_body_inv (env : Env) (cfg : Config) (e : nat) (st st' : State) :
  epoch_body env cfg e st = Ok st' →
  ∃ r r_fr mask_fr lp sur due,
    rate (model_at env e) (sample_at env e).2 = Ok r
    ∧ buffer_update (n_iterations_store cfg) (r_fr_list st)
        (mask_spikes_fr_list st) r (sample_at env e).1
      = Ok (r_fr_list st', mask_spikes_fr_list st')
    ∧ torch_cat1 (r_fr_list st') = Ok r_fr
    ∧ torch_cat1 (mask_spikes_fr_list st') = Ok mask_fr
    ∧ log_proba (dt env) r_fr mask_fr = Ok lp
    ∧ surrogate env cfg (length (mask_spikes_fr_list st')) mask_fr lp = Ok sur
    ∧ (if log_likelihood cfg
       then ∃ _nll,
         _neg_log_likelihood (model_at env e) (dt env) (mask_spikes env)
           (X_dc env) = Ok _nll
         ∧ loss st' = loss st ++ [fadd (fmul (Fin (lam_mmd cfg)) sur.1) _nll]
         ∧ nll st' = nll st ++ [_nll]
       else loss st' = loss st ++ [fmul (Fin (lam_mmd cfg)) sur.1]
            ∧ nll st' = nll st)
    ∧ (control_variates cfg = true →
       ∃ mv, control_variate env (model_at env e) mask_fr
               (sample_at env e).2 sur.2 = Ok mv)
    ∧ metrics_due e (n_metrics cfg) = Ok due
    ∧ (if due
       then metrics_record env cfg e (model_at env e) mask_fr sur.2
              (metrics_list st) = Ok (metrics_list st')
       else metrics_list st' = metrics_list st)
    ∧ trace st' = trace st ++ body_steps cfg due.
Proof.
  unfold epoch_body. intros H.
  apply bind_Ok in H as (fwd & Hfwd & H).
  apply bind_Ok in Hfwd as (r & Hr & Hfwd). injection Hfwd as <-.
  cbv beta iota zeta in H.
  apply bind_Ok in H as ([rl ml] & Hbufs & H).
  apply bind_Ok in H as (r_fr & Hr_fr & H).
  apply bind_Ok in H as (mask_fr & Hmask_fr & H).
  apply bind_Ok in H as (lp & Hlp & H).
  apply bind_Ok in H as (sur & Hsur & H).
  apply bind_Ok in H as (assembled & Hass & H).
  apply bind_Ok in H as (tr & Htr & H).
  apply bind_Ok in H as (due & Hdue & H).
  apply bind_Ok in H as (recorded & Hrec & H).
  injection H as <-. simpl in *.
  exists r, r_fr, mask_fr, lp, sur, due.
  repeat split; try done.
  - destruct (log_likelihood cfg).
    + apply bind_Ok in Hass as (_nll & Hnll & Hass). injection Hass as <-.
      by exists _nll.
    + by injection Hass as <-.
  - intros Hcv. rewrite Hcv in Htr.
    apply bind_Ok in Htr as (mv & Hmv & _). by exists mv.
  - destruct due.
    + apply bind_Ok in Hrec as (ml' & Hml & Hrec). by injection Hrec as <-.
    + by injection Hrec as <-.
  - unfold body_steps, optional.
    assert (Htr' : tr = trace st
               ++ [ZeroGrad; SampleStep; BufferUpdate; LossAssembly; Backprop]
               ++ (if control_variates cfg then [ControlVariateInjection]
                   else [])).
    { destruct (control_variates cfg).
      - apply bind_Ok in Htr as (mv & _ & Htr). injection Htr as <-.
        by rewrite <- !app_assoc.
      - injection Htr as <-. rewrite app_nil_r. by rewrite <- !app_assoc. }
    subst tr.
    assert (Hrec' : recorded.2
              = (trace st
                 ++ [ZeroGrad; SampleStep; BufferUpdate; LossAssembly; Backprop]
                 ++ (if control_variates cfg then [ControlVariateInjection]
                     else []))
                ++ (if bool_decide (is_Some (clip cfg)) then [GradientClip]
                    else [])
                ++ (if due then [MetricsRecord] else [])).
    { destruct due.
      - apply bind_Ok in Hrec as (ml' & _ & Hrec). injection Hrec as <-.
        simpl. destruct (clip cfg); simpl; by rewrite <- ?app_assoc, ?app_nil_r.
      - injection Hrec as <-. simpl.
        destruct (clip cfg); simpl; by rewrite ?app_nil_r. }
    rewrite Hrec'. destruct (has_scheduler cfg); simpl;
      by rewrite <- !app_assoc.
Qed.

Lemma body_steps_in_spec_machine (cfg : Config) (recorded : bool) :
  filter in_spec_machine (body_steps cfg recorded)
  = code_epoch_order cfg recorded.
Proof.
  unfold body_steps, code_epoch_order, optional.
  by destruct (control_variates cfg), (bool_decide (is_Some (clip cfg))),
    recorded, (has_scheduler cfg).
Qed.

Lemma epoch_steps_app (st st' : State) (l : list Step) :
  trace st' = trace st ++ l → epoch_steps st st' = l.
Proof. intros H. unfold epoch_steps. rewrite H. apply drop_app_length. Qed.

Lemma epoch_steps_code_order (env : Env) (cfg : Config) (epoch : nat)
    (st st' : State) :
  epoch_body env cfg epoch st = Ok st' →
  ∃ recorded, metrics_due epoch (n_metrics cfg) = Ok recorded
    ∧ epoch_steps st st' = body_steps cfg recorded
    ∧ filter in_spec_machine (epoch_steps st st')
      = code_epoch_order cfg recorded.
Proof.
  intros H.
  apply epoch_body_inv in H
    as (r & r_fr & mask_fr & lp & sur & due & _ & _ & _ & _ & _ & _ & _ & _
        & Hdue & _ & Htrace).
  exists due. split; [done|].
  rewrite (epoch_steps_app _ _ _ Htrace). split; [done|].
  apply body_steps_in_spec_machine.
Qed.

(** C5, as the code has it.  One pass of the body runs SampleStep,
    BufferUpdate, LossAssembly, Backprop, the optional
    ControlVariateInjection, the optional GradientClip, then MetricsRecord
    on the epochs where [epoch % n_metrics == 0], and only then
    OptimizerStep and ParamSync: metrics are recorded before the optimizer
    step and the parameter synchronisation of their epoch. *)
Theorem epoch_order_metrics_before_step (env : Env) (cfg : Config)
    (epoch : nat) (st st' : State) :
  epoch_body env cfg epoch st = Ok st' →
  ∃ recorded, metrics_due epoch (n_metrics cfg) = Ok recorded
    ∧ epoch_steps st st' = body_steps cfg recorded
    ∧ filter in_spec_machine (epoch_steps st st')
      = [SampleStep; BufferUpdate; LossAssembly; Backprop]
        ++ optional (control_variates cfg) ControlVariateInjection
        ++ optional (bool_decide (is_Some (clip cfg))) GradientClip
        ++ optional recorded MetricsRecord
        ++ [OptimizerStep; ParamSync].
Proof. apply epoch_steps_code_order. Qed.

Lemma first_epoch_runs : ∃ st', epoch_body env0 cfg0 0 init_state = Ok st'.
Proof. vm_compute. eexists. reflexivity. Qed.

(** C5, as stated, fails on the first epoch of the small run: metrics are
    recorded there, and the order of the body is not the claimed one. *)
Lemma metrics_not_after_step : ¬ follows_spec_order env0 cfg0 0 init_state.
Proof.
  intros Hspec. destruct first_epoch_runs as [st' Hst'].
  destruct (Hspec st' Hst') as (recorded & Hdue & Horder).
  destruct (epoch_steps_code_order _ _ _ _ _ Hst')
    as (recorded' & Hdue' & _ & Hcode).
  rewrite Hdue in Hdue'. injection Hdue' as <-.
  rewrite Horder in Hcode.
  assert (recorded = true) as -> by (vm_compute in Hdue; congruence).
  discriminate Hcode.
Qed.

Lemma epoch_order_metrics_before_step_witness :
  ∃ st', epoch_body env0 cfg0 0 init_state = Ok st'
    ∧ ∃ recorded, metrics_due 0 (n_metrics cfg0) = Ok recorded
        ∧ epoch_steps init_state st' = body_steps cfg0 recorded
        ∧ filter in_spec_machine (epoch_steps init_state st')
          = [SampleStep; BufferUpdate; LossAssembly; Backprop]
            ++ optional (control_variates cfg0) ControlVariateInjection
            ++ optional (bool_decide (is_Some (clip cfg0))) GradientClip
            ++ optional recorded MetricsRecord
            ++ [OptimizerStep; ParamSync].
Proof.
  destruct first_epoch_runs as [st' Hst']. exists st'.
  split; [exact Hst'|].
  exact (epoch_order_metrics_before_step env0 cfg0 0 init_state st' Hst').
Defined.

(** ** The history buffer *)

Section buffer.
Context {A B : Type}.
Variable cap : Z.
Hypothesis cap_pos : (1 <= cap)%Z.

Implicit Types (rl : list A) (ml : list B) (entries : list (A * B)).

Lemma buffer_update_below rl ml (r : A) (m : B) :
  (Z.of_nat (length ml) < cap)%Z →
  buffer_update cap rl ml r m = Ok (rl ++ [r], ml ++ [m]).
Proof.
  intros Hlt. unfold buffer_update.
  destruct (Z.leb_spec cap (Z.of_nat (length ml))); [lia|done].
Qed.

Lemma buffer_update_full (r0 : A) rl (m0 : B) ml (r : A) (m : B) :
  (cap <= Z.of_nat (length (m0 :: ml)))%Z →
  buffer_update cap (r0 :: rl) (m0 :: ml) r m = Ok (rl ++ [r], ml ++ [m]).
Proof.
  intros Hle. unfold buffer_update.
  destruct (Z.leb_spec cap (Z.of_nat (length (m0 :: ml)))); [done|lia].
Qed.

(** From a buffer within capacity, pushing leaves the last [cap] elements
    of the old content followed by the pushed entries. *)
Lemma push_all_last entries rl ml :
  length rl = length ml → (length ml <= Z.to_nat cap)%nat →
  push_all cap entries rl ml
  = Ok (drop (length (rl ++ entries.*1) - Z.to_nat cap) (rl ++ entries.*1),
        drop (length (ml ++ entries.*2) - Z.to_nat cap) (ml ++ entries.*2)).
Proof.
  revert rl ml. induction entries as [|[r m] entries IH];
    intros rl ml Heq Hle; simpl.
  - rewrite !app_nil_r.
    replace (length rl - Z.to_nat cap)%nat with 0%nat by lia.
    by replace (length ml - Z.to_nat cap)%nat with 0%nat by lia.
  - destruct (decide (length ml = Z.to_nat cap)) as [Hfull|Hbelow].
    + destruct rl as [|r0 rl], ml as [|m0 ml]; simpl in *; try lia.
      rewrite buffer_update_full by (simpl; lia). simpl.
      rewrite IH by (rewrite !length_app; simpl; lia).
      rewrite <- !app_assoc. csimpl.
      rewrite !Nat.sub_succ_l by (rewrite length_app; simpl; lia).
      done.
    + rewrite buffer_update_below by lia. simpl.
      rewrite IH by (rewrite !length_app; simpl; lia).
      by rewrite <- !app_assoc.
Qed.

Lemma push_all_from_empty entries :
  push_all cap entries [] []
  = Ok (drop (length entries - Z.to_nat cap) entries.*1,
        drop (length entries - Z.to_nat cap) entries.*2).
Proof.
  rewrite push_all_last by (simpl; lia). simpl.
  by rewrite !length_fmap.
Qed.
End buffer.

(** C2.  With a capacity of at least 1, any sequence of pushes succeeds and
    leaves a buffer no longer than the capacity, holding the most recently
    pushed entries in insertion order; after [capacity + k] pushes these are
    exactly the last [capacity] entries.  A push below capacity appends; a
    push at capacity removes index 0 and appends. *)
Theorem buffer_is_bounded_fifo {A B : Type} (cap : Z) (entries : list (A * B)) :
  (1 <= cap)%Z →
  (∃ rl ml, push_all cap entries [] [] = Ok (rl, ml)
     ∧ length rl = length ml
     ∧ (Z.of_nat (length ml) <= cap)%Z
     ∧ rl = drop (length entries - Z.to_nat cap) entries.*1
     ∧ ml = drop (length entries - Z.to_nat cap) entries.*2
     ∧ ∀ k, (1 <= k)%nat → length entries = (Z.to_nat cap + k)%nat →
         Z.of_nat (length ml) = cap
         ∧ rl = (drop k entries).*1 ∧ ml = (drop k entries).*2)
  ∧ (∀ (rl : list A) (ml : list B) r m, (Z.of_nat (length ml) < cap)%Z →
       buffer_update cap rl ml r m = Ok (rl ++ [r], ml ++ [m]))
  ∧ (∀ r0 (rl : list A) m0 (ml : list B) r m,
       Z.of_nat (length (m0 :: ml)) = cap →
       buffer_update cap (r0 :: rl) (m0 :: ml) r m
       = Ok (rl ++ [r], ml ++ [m])).
Proof.
  intros Hcap. split; [|split].
  - eexists _, _. split; [by apply push_all_from_empty|].
    rewrite !length_drop, !length_fmap.
    split; [done|]. split; [lia|]. split; [done|]. split; [done|].
    intros k Hk Hlen. rewrite !fmap_drop.
    split; [lia|]. split; f_equal; lia.
  - intros. by apply buffer_update_below.
  - intros. apply buffer_update_full. lia.
Qed.

Lemma buffer_is_bounded_fifo_witness :
  (1 <= 2)%Z
  ∧ push_all 2 [(10, true); (20, false); (30, true)]%nat [] []
    = Ok ([20; 30]%nat, [false; true]).
Proof.
  split; [lia|].
  destruct (buffer_is_bounded_fifo 2 [(10, true); (20, false); (30, true)]%nat)
    as [(rl & ml & Hpush & _ & _ & -> & -> & _) _]; [lia|].
  exact Hpush.
Defined.

(** ** Runs of the loop *)

Lemma run_epochs_S (env : Env) (cfg : Config) (k : nat) (st : State) :
  run_epochs env cfg (S k) = Ok st →
  ∃ st0, run_epochs env cfg k = Ok st0 ∧ epoch_body env cfg k st0 = Ok st.
Proof. simpl. apply bind_Ok. Qed.

Lemma weights_single (beta : R) (n : Z) :
  (0 <= n)%Z → weights beta 1 n = Ok (replicate (Z.to_nat n) 1).
Proof.
  intros Hn. unfold weights.
  destruct (Z.ltb_spec n 0); [lia|]. simpl. by rewrite app_nil_r.
Qed.

Lemma run_capacity_one (env : Env) (cfg : Config) (k : nat) (st : State) :
  n_iterations_store cfg = 1%Z →
  run_epochs env cfg (S k) = Ok st →
  ∃ r, rate (model_at env k) (sample_at env k).2 = Ok r
    ∧ r_fr_list st = [r]
    ∧ mask_spikes_fr_list st = [(sample_at env k).1].
Proof.
  intros Hcap. revert st. induction k as [|k IH]; intros st Hrun;
    apply run_epochs_S in Hrun as (st0 & Hrun0 & Hbody);
    apply epoch_body_inv in Hbody
      as (r & _ & _ & _ & _ & _ & Hr & Hbuf & _);
    exists r; (split; [exact Hr|]); rewrite Hcap in Hbuf.
  - injection Hrun0 as <-. simpl in Hbuf. by injection Hbuf as <- <-.
  - destruct (IH st0 Hrun0) as (r0 & _ & Hrl & Hml).
    rewrite Hrl, Hml in Hbuf. by injection Hbuf as <- <-.
Qed.

Lemma zip_with_ones (row : vec) (n : nat) :
  length row = n → zip_with Rmult row (replicate n 1) = row.
Proof.
  intros <-. induction row as [|x row IH]; simpl; [done|].
  rewrite IH. f_equal. lra.
Qed.

(** With a single buffered entry the weighting leaves the features as they
    are. *)
Lemma weighted_features_single (beta : R) (n : Z) (F : nat) (phi_fr : mat) :
  (0 <= n)%Z → has_shape2 F (Z.to_nat n) phi_fr →
  weighted_features beta 1 n phi_fr = Ok phi_fr.
Proof.
  intros Hn [_ Hrows]. unfold weighted_features.
  rewrite weights_single by done. simpl. unfold bzip2, as_row.
  assert (Hmap : mapM (λ row, bzip (λ x y, Ok (x * y)) row
                                (replicate (Z.to_nat n) 1)) phi_fr
                 = Ok phi_fr).
  { rewrite <- (list_fmap_id phi_fr) at 2. apply mapM_Forall_pure.
    eapply Forall_impl; [exact Hrows|]. intros row Hrow. simpl.
    rewrite bzip_same_length by (by rewrite length_replicate).
    by rewrite zip_with_ones. }
  unfold bzip at 1.
  destruct (decide (length phi_fr = length [replicate (Z.to_nat n) 1]))
    as [Hone|Hne].
  - by destruct phi_fr as [|row [|row' phi_fr]].
  - by destruct phi_fr as [|row [|row' phi_fr]].
Qed.

Lemma push_all_snoc {A B : Type} (cap : Z) (entries : list (A * B))
    (e : A * B) (rl : list A) (ml : list B) :
  push_all cap (entries ++ [e]) rl ml
  = (bufs ← push_all cap entries rl ml;
     buffer_update cap bufs.1 bufs.2 e.1 e.2).
Proof.
  revert rl ml. induction entries as [|e0 entries IH]; intros rl ml; simpl.
  - by destruct (buffer_update cap rl ml e.1 e.2) as [[]|].
  - destruct (buffer_update cap rl ml e0.1 e0.2) as [[rl' ml']|]; [|done].
    simpl. apply IH.
Qed.

(** The buffers of a run are the pushes of the minibatches of its epochs. *)
Lemma run_buffers (env : Env) (cfg : Config) (k : nat) (st : State) :
  run_epochs env cfg k = Ok st →
  ∃ entries, length entries = k
    ∧ push_all (n_iterations_store cfg) entries [] []
      = Ok (r_fr_list st, mask_spikes_fr_list st).
Proof.
  revert st. induction k as [|k IH]; intros st Hrun.
  - injection Hrun as <-. by exists [].
  - apply run_epochs_S in Hrun as (st0 & Hrun0 & Hbody).
    destruct (IH st0 Hrun0) as (entries & Hlen & Hpush).
    apply epoch_body_inv in Hbody as (r & _ & _ & _ & _ & _ & _ & Hbuf & _).
    exists (entries ++ [(r, (sample_at env k).1)]). split.
    + rewrite length_app. simpl. lia.
    + by rewrite push_all_snoc, Hpush.
Qed.

(** C3.  In a run with [n_iterations_store = 1], after the buffer update of
    every epoch the buffer holds the fresh minibatch alone; its
    concatenation is the fresh rate and the fresh spike mask, [log_proba]
    and the surrogate are evaluated on them, every weight is [beta^0 = 1]
    and the weighted features are the features. *)
Theorem capacity_one_is_no_history (env : Env) (cfg : Config) (k : nat)
    (st : State) :
  n_iterations_store cfg = 1%Z →
  run_epochs env cfg (S k) = Ok st →
  ∃ r lp sur,
    rate (model_at env k) (sample_at env k).2 = Ok r
    ∧ r_fr_list st = [r]
    ∧ mask_spikes_fr_list st = [(sample_at env k).1]
    ∧ torch_cat1 (r_fr_list st) = Ok r
    ∧ torch_cat1 (mask_spikes_fr_list st) = Ok (sample_at env k).1
    ∧ log_proba (dt env) r (sample_at env k).1 = Ok lp
    ∧ surrogate env cfg 1 (sample_at env k).1 lp = Ok sur
    ∧ ((0 <= n_batch_fr cfg)%Z →
       weights (beta cfg) (length (mask_spikes_fr_list st)) (n_batch_fr cfg)
       = Ok (replicate (Z.to_nat (n_batch_fr cfg)) 1)
       ∧ ∀ F phi_fr, has_shape2 F (Z.to_nat (n_batch_fr cfg)) phi_fr →
           weighted_features (beta cfg) (length (mask_spikes_fr_list st))
             (n_batch_fr cfg) phi_fr = Ok phi_fr).
Proof.
  intros Hcap Hrun.
  destruct (run_capacity_one env cfg k st Hcap Hrun) as (r & Hr & Hrl & Hml).
  apply run_epochs_S in Hrun as (st0 & _ & Hbody).
  apply epoch_body_inv in Hbody
    as (r' & r_fr & mask_fr & lp & sur & _ & _ & _ & Hcat_r & Hcat_m & Hlp
        & Hsur & _).
  rewrite Hrl in Hcat_r. rewrite Hml in Hcat_m, Hsur.
  injection Hcat_r as <-. injection Hcat_m as <-.
  exists r, lp, sur. rewrite Hrl, Hml.
  repeat (split; [done|]). intros Hn. split; [by apply weights_single|].
  intros F phi_fr Hshape. by eapply weighted_features_single.
Qed.

Lemma small_run_completes : ∃ st, run_epochs env0 cfg0 2 = Ok st.
Proof. vm_compute. eexists. reflexivity. Qed.

Lemma capacity_one_is_no_history_witness :
  n_iterations_store cfg0 = 1%Z
  ∧ ∃ st, run_epochs env0 cfg0 2 = Ok st
      ∧ ∃ r, rate model0 [[[1]; [1]]] = Ok r
          ∧ r_fr_list st = [r]
          ∧ mask_spikes_fr_list st = [[[false; true]]]
          ∧ torch_cat1 (r_fr_list st) = Ok r
          ∧ torch_cat1 (mask_spikes_fr_list st) = Ok [[false; true]].
Proof.
  split; [reflexivity|].
  destruct small_run_completes as [st Hst]. exists st. split; [exact Hst|].
  destruct (capacity_one_is_no_history env0 cfg0 1 st eq_refl Hst)
    as (r & lp & sur & H1 & H2 & H3 & H4 & H5 & _).
  exists r. repeat split; assumption.
Defined.

(** ** What [train] returns *)

Lemma metrics_due_first (n : Z) (due : bool) :
  metrics_due 0 n = Ok due → due = true.
Proof.
  unfold metrics_due. destruct (n =? 0)%Z; [discriminate|].
  intros H. injection H as <-. by destruct n.
Qed.

Lemma append_items_is_Some (items : list (string * fval))
    (d : gmap string (list fval)) (ml' : option (gmap string (list fval))) :
  append_items items (Some d) = Ok ml' → is_Some ml'.
Proof.
  revert d. induction items as [|[key val] items IH]; intros d; simpl.
  - intros H. injection H as <-. eauto.
  - destruct (d !! key); [apply IH|discriminate].
Qed.

Lemma metrics_record_is_Some (env : Env) (cfg : Config) (epoch : nat)
    (self : MMDGLM2) (mask_fr : bmat) (loc : SimLocals)
    (ml ml' : option (gmap string (list fval))) :
  metrics_record env cfg epoch self mask_fr loc ml = Ok ml' →
  epoch = 0%nat ∨ is_Some ml → is_Some ml'.
Proof.
  unfold metrics_record. intros H Hcase.
  apply bind_Ok in H as (mmd & _ & H).
  destruct (decide (epoch = 0%nat)) as [->|Hne].
  - injection H as <-. eauto.
  - destruct Hcase as [->|[d ->]]; [done|]. by eapply append_items_is_Some.
Qed.

Lemma epoch_body_outputs (env : Env) (cfg : Config) (epoch : nat)
    (st st' : State) :
  epoch_body env cfg epoch st = Ok st' →
  length (loss st') = S (length (loss st))
  ∧ (epoch = 0%nat ∨ is_Some (metrics_list st) → is_Some (metrics_list st'))
  ∧ prelude env = Ok ().
Proof.
  intros H.
  apply epoch_body_inv in H
    as (r & r_fr & mask_fr & lp & sur & due & _ & _ & _ & _ & _ & Hsur
        & Hloss & _ & Hdue & Hrec & _).
  split; [|split].
  - destruct (log_likelihood cfg).
    + destruct Hloss as (_nll & _ & -> & _). rewrite length_app. simpl. lia.
    + destruct Hloss as [-> _]. rewrite length_app. simpl. lia.
  - intros [-> | Hsome].
    + rewrite (metrics_due_first _ _ Hdue) in Hrec.
      eapply metrics_record_is_Some; eauto.
    + destruct due; [|by rewrite Hrec].
      eapply metrics_record_is_Some; eauto.
  - unfold surrogate in Hsur. unfold prelude.
    destruct (phi env); [done|]. by destruct (kernel env).
Qed.

Lemma run_epochs_outputs (env : Env) (cfg : Config) (k : nat) (st : State) :
  run_epochs env cfg k = Ok st →
  length (loss st) = k
  ∧ ((1 <= k)%nat → is_Some (metrics_list st) ∧ prelude env = Ok ()).
Proof.
  revert st. induction k as [|k IH]; intros st Hrun.
  - injection Hrun as <-. split; [done|lia].
  - apply run_epochs_S in Hrun as (st0 & Hrun0 & Hbody).
    destruct (IH st0 Hrun0) as [Hlen Hsome].
    destruct (epoch_body_outputs _ _ _ _ _ Hbody) as (Hlen' & Hml & Hpre).
    split; [lia|]. intros _. split; [|done].
    apply Hml. destruct k; [by left|right]. apply Hsome. lia.
Qed.

(** C10.  With [num_epochs <= 0] the loop body never runs, [metrics_list]
    is never bound and [train] raises instead of returning (an
    UnboundLocalError at the return statement once the similarity is
    supplied).  With [num_epochs >= 1], when the passes of the body
    complete, [train] returns, and the loss list it returns has exactly
    [num_epochs] entries. *)
Theorem train_needs_one_epoch (env : Env) (cfg : Config) :
  ((num_epochs cfg <= 0)%Z →
     (∀ out, train env cfg ≠ Ok out)
     ∧ (prelude env = Ok () → train env cfg = Raise UnboundLocalError))
  ∧ ((1 <= num_epochs cfg)%Z →
     ∀ st, run_epochs env cfg (Z.to_nat (num_epochs cfg)) = Ok st →
       ∃ ml, train env cfg = Ok (loss st, nll st, ml)
         ∧ Z.of_nat (length (loss st)) = num_epochs cfg).
Proof.
  split.
  - intros Hn. unfold train.
    replace (Z.to_nat (num_epochs cfg)) with 0%nat by lia.
    destruct (prelude env) as [[]|e]; simpl; split; try done.
  - intros Hn st Hrun. unfold train.
    destruct (run_epochs_outputs _ _ _ _ Hrun) as [Hlen Hsome].
    destruct Hsome as [[ml Hml] ->]; [lia|]. simpl.
    rewrite Hrun. simpl. rewrite Hml. exists ml. split; [done|lia].
Qed.

Lemma train_needs_one_epoch_witness :
  (1 <= num_epochs cfg0)%Z
  ∧ ∃ st, run_epochs env0 cfg0 (Z.to_nat (num_epochs cfg0)) = Ok st
      ∧ ∃ ml, train env0 cfg0 = Ok (loss st, nll st, ml)
          ∧ Z.of_nat (length (loss st)) = 2%Z.
Proof.
  split; [simpl; lia|].
  destruct small_run_completes as [st Hst]. exists st. split; [exact Hst|].
  apply (proj2 (train_needs_one_epoch env0 cfg0)); [simpl; lia|exact Hst].
Defined.

(** ** The denominator of the unbiased estimators *)












(** ** The discount weights *)

Lemma blocks_lookup (f : nat → R) (n m s i j : nat) :
  (i < m)%nat → (j < n)%nat →
  concat ((λ a, replicate n (f a)) <$> seq s m) !! (i * n + j)%nat
  = Some (f (s + i)%nat).
Proof.
  revert s i. induction m as [|m IH]; intros s i Hi Hj; [lia|].
  csimpl. destruct i as [|i].
  - rewrite lookup_app_l by (rewrite length_replicate; lia).
    rewrite Nat.add_0_r. apply lookup_replicate_2. lia.
  - rewrite lookup_app_r by (rewrite length_replicate; simpl; lia).
    rewrite length_replicate.
    replace (S i * n + j - n)%nat with (i * n + j)%nat by (simpl; lia).
    rewrite IH by lia. f_equal. f_equal. lia.
Qed.

(** The weight of a trial is [beta] to the power of the buffer index of its
    entry, and index 0 is the oldest retained entry. *)
Lemma weights_by_buffer_index (beta : R) (m n i j : nat) :
  (i < m)%nat → (j < n)%nat →
  ∃ w, weights beta m (Z.of_nat n) = Ok w
    ∧ w !! (i * n + j)%nat = Some (beta ^ i).
Proof.
  intros Hi Hj. unfold weights.
  destruct (Z.ltb_spec (Z.of_nat n) 0); [lia|].
  eexists. split; [reflexivity|]. rewrite Nat2Z.id.
  by rewrite (blocks_lookup (λ a, beta ^ a) n m 0 i j).
Qed.

(** C1, on three pushes with [beta = 1/2] and one trial per minibatch.  The
    buffer keeps the entries oldest first, the concatenation puts the trial
    of the first push in column 0 and that of the last push in column 2, and
    the weights are [1, 1/2, 1/4] in this order: the most recently pushed
    entry is multiplied by [beta^2], the oldest by [beta^0 = 1]. *)
Theorem newest_entry_weighted_least (x0 x1 x2 : R) :
  push_all 3 [([[x0]], [[true]]); ([[x1]], [[false]]); ([[x2]], [[true]])]
    [] []
  = Ok ([[[x0]]; [[x1]]; [[x2]]], [[[true]]; [[false]]; [[true]]])
  ∧ torch_cat1 [[[x0]]; [[x1]]; [[x2]]] = Ok [[x0; x1; x2]]
  ∧ weights (1 / 2) 3 1 = Ok [1; 1 / 2; 1 / 4]
  ∧ weighted_features (1 / 2) 3 1 [[x0; x1; x2]]
    = Ok [[x0 * 1; x1 * (1 / 2); x2 * (1 / 4)]].
Proof.
  assert (Hw : weights (1 / 2) 3 1 = Ok [1; 1 / 2; 1 / 4]).
  { unfold weights. simpl.
    replace (1 / 2 * 1) with (1 / 2) by lra.
    by replace (1 / 2 * (1 / 2)) with (1 / 4) by lra. }
  split; [reflexivity|]. split; [reflexivity|]. split; [exact Hw|].
  unfold weighted_features. rewrite Hw. reflexivity.
Qed.

(** ** The scores of the control variates *)

Lemma score_arguments_used (env : Env) (cfg : Config) (epoch : nat)
    (st st' : State) :
  epoch_body env cfg epoch st = Ok st' →
  control_variates cfg = true →
  ∃ mask_fr mv,
    score_arguments env cfg epoch st = Ok (mask_fr, (sample_at env epoch).2)
    ∧ torch_cat1 (mask_spikes_fr_list st') = Ok mask_fr
    ∧ (scores ← _score (model_at env epoch) (dt env) mask_fr
                 (sample_at env epoch).2;
       Ok (mean_dim0 scores, var_dim0 scores)) = Ok mv.
Proof.
  intros Hbody Hcv.
  apply epoch_body_inv in Hbody
    as (r & r_fr & mask_fr & lp & sur & due & Hr & Hbuf & _ & Hcat & _ & _
        & _ & Hscore & _).
  destruct (Hscore Hcv) as [mv Hmv]. exists mask_fr, mv.
  split; [|split; [done|]].
  - unfold score_arguments, forward. rewrite Hr. simpl. rewrite Hbuf. simpl.
    by rewrite Hcat.
  - unfold control_variate in Hmv.
    apply bind_Ok in Hmv as (scores & Hscores & Hmv). rewrite Hscores. simpl.
    by destruct (kernel env), sur.2.
Qed.

(** C7, on the second epoch of the small run with a history of two
    minibatches of two trials and control variates.  [_score] receives the
    four-trial concatenation of both buffered masks with the two-trial
    design matrix of the fresh minibatch, not the fresh mask; the shapes do
    not broadcast and [train] raises.  The same run completes without
    control variates, and with them when [n_iterations_store = 1]. *)
Theorem score_receives_history_mask :
  ∃ st1, run_epochs env0 (cfg_history 2 true) 1 = Ok st1
    ∧ sample_at env0 1 = ([[false; true]], [[[1]; [1]]])
    ∧ score_arguments env0 (cfg_history 2 true) 1 st1
      = Ok ([[true; false; false; true]], [[[1]; [1]]])
    ∧ _score model0 1 [[true; false; false; true]] [[[1]; [1]]]
      = Raise RuntimeError
    ∧ (∃ scores, _score model0 1 [[false; true]] [[[1]; [1]]] = Ok scores)
    ∧ train env0 (cfg_history 2 true) = Raise RuntimeError
    ∧ (∃ out, train env0 (cfg_history 2 false) = Ok out)
    ∧ (∃ out, train env0 (cfg_history 1 true) = Ok out).
Proof.
  eexists. split; [vm_compute; reflexivity|].
  split; [reflexivity|].
  split; [vm_compute; reflexivity|].
  split; [vm_compute; reflexivity|].
  split; [vm_compute; eexists; reflexivity|].
  split; [vm_compute; reflexivity|].
  split; vm_compute; eexists; reflexivity.
Qed.

(** * Further properties of the loop *)

(** ** What a returning [train] went through *)

Lemma run_epochs_prefix (env : Env) (cfg : Config) (j k : nat) (st : State) :
  run_epochs env cfg k = Ok st → (j <= k)%nat →
  ∃ st', run_epochs env cfg j = Ok st'.
Proof.
  revert st. induction k as [|k IH]; intros st Hrun Hj.
  - assert (j = 0%nat) as -> by lia. eauto.
  - destruct (decide (j = S k)) as [->|Hne]; [eauto|].
    apply run_epochs_S in Hrun as (st0 & Hrun0 & _).
    apply (IH st0 Hrun0). lia.
Qed.

Lemma run_epochs_raise (env : Env) (cfg : Config) (j k : nat) (e : exn) :
  run_epochs env cfg j = Raise e → (j <= k)%nat →
  run_epochs env cfg k = Raise e.
Proof.
  intros Hj Hle. induction Hle as [|k Hle IH]; [done|].
  simpl. by rewrite IH.
Qed.

Lemma train_Ok_inv (env : Env) (cfg : Config)
    (out : list fval * list fval * gmap string (list fval)) :
  train env cfg = Ok out →
  ∃ st, prelude env = Ok ()
    ∧ run_epochs env cfg (Z.to_nat (num_epochs cfg)) = Ok st
    ∧ (1 <= Z.to_nat (num_epochs cfg))%nat
    ∧ metrics_list st = Some out.2
    ∧ out.1 = (loss st, nll st).
Proof.
  unfold train. intros H.
  apply bind_Ok in H as ([] & Hpre & H).
  apply bind_Ok in H as (st & Hrun & H).
  destruct (metrics_list st) as [ml|] eqn:Hml; [|discriminate].
  injection H as <-. exists st. repeat split; try done.
  destruct (Z.to_nat (num_epochs cfg)); [|lia].
  injection Hrun as <-. discriminate.
Qed.

Lemma train_Ok_first_epoch (env : Env) (cfg : Config)
    (out : list fval * list fval * gmap string (list fval)) :
  train env cfg = Ok out →
  ∃ st1, epoch_body env cfg 0 init_state = Ok st1.
Proof.
  intros H. apply train_Ok_inv in H as (st & _ & Hrun & Hk & _).
  destruct (run_epochs_prefix env cfg 1 _ st Hrun Hk) as [st1 Hst1].
  exists st1. by apply run_epochs_S in Hst1 as (st0 & [= <-] & Hbody).
Qed.

Lemma train_raises_with_first_epoch (env : Env) (cfg : Config) (e : exn) :
  (1 <= num_epochs cfg)%Z → prelude env = Ok () →
  epoch_body env cfg 0 init_state = Raise e →
  train env cfg = Raise e.
Proof.
  intros Hn Hpre Hbody. unfold train. rewrite Hpre. simpl.
  rewrite (run_epochs_raise env cfg 1 _ e); [done| |lia].
  simpl. exact Hbody.
Qed.

(** X1.  A capacity [n_iterations_store <= 0] is no "keep nothing"
    setting: the length test of line 116 holds for the empty buffer, line
    117 pops from the empty list, and the first epoch raises IndexError;
    [train] returns for no configuration with such a capacity. *)
Theorem nonpositive_store_raises (env : Env) (cfg : Config) :
  (n_iterations_store cfg <= 0)%Z →
  (∀ out, train env cfg ≠ Ok out)
  ∧ (∀ r, (1 <= num_epochs cfg)%Z → prelude env = Ok () →
       rate (model_at env 0) (sample_at env 0).2 = Ok r →
       train env cfg = Raise IndexError).
Proof.
  intros Hcap.
  assert (Hpop : ∀ (r : mat) (m : bmat),
            buffer_update (n_iterations_store cfg) [] [] r m
            = Raise IndexError).
  { intros r m. unfold buffer_update. simpl.
    change (Z.of_nat 0) with 0%Z.
    destruct (Z.leb_spec (n_iterations_store cfg) 0); [done|lia]. }
  split.
  - intros out H. apply train_Ok_first_epoch in H as [st1 Hbody].
    apply epoch_body_inv in Hbody as (r & _ & _ & _ & _ & _ & _ & Hbuf & _).
    simpl in Hbuf. by rewrite Hpop in Hbuf.
  - intros r Hn Hpre Hr. apply train_raises_with_first_epoch; try done.
    unfold epoch_body, forward. rewrite Hr. simpl. by rewrite Hpop.
Qed.

Lemma nonpositive_store_raises_witness :
  (n_iterations_store (cfg_of 0 25 2 false) <= 0)%Z
  ∧ train env0 (cfg_of 0 25 2 false) = Raise IndexError.
Proof.
  assert (H0 : (n_iterations_store (cfg_of 0 25 2 false) <= 0)%Z)
    by (simpl; lia).
  split; [exact H0|].
  apply (proj2 (nonpositive_store_raises env0 (cfg_of 0 25 2 false) H0)
           [[exp (1 * 0 + 0); exp (1 * 0 + 0)]]);
    [simpl; lia|reflexivity|reflexivity].
Defined.

(** X2.  A reporting period [n_metrics = 0] makes [epoch % n_metrics]
    divide by zero: [train] returns for no such configuration, and when the
    first epoch gets as far as line 192 it raises ZeroDivisionError there,
    after the loss was assembled and before any optimizer step. *)
Theorem zero_period_raises (env : Env) (cfg : Config) :
  n_metrics cfg = 0%Z →
  (∀ out, train env cfg ≠ Ok out)
  ∧ (∀ epoch st, ∀ st', epoch_body env cfg epoch st ≠ Ok st')
  ∧ metrics_due 0 (n_metrics cfg) = Raise ZeroDivisionError.
Proof.
  intros Hzero.
  assert (Hbody : ∀ epoch st st', epoch_body env cfg epoch st ≠ Ok st').
  { intros epoch st st' H.
    apply epoch_body_inv in H
      as (r & r_fr & mask_fr & lp & sur & due & _ & _ & _ & _ & _ & _ & _ & _
          & Hdue & _).
    rewrite Hzero in Hdue. discriminate. }
  split; [|split; [done|by rewrite Hzero]].
  intros out H. apply train_Ok_first_epoch in H as [st1 H]. by eapply Hbody.
Qed.

Lemma zero_period_raises_witness :
  n_metrics (cfg_of 1 0 2 false) = 0%Z
  ∧ train env0 (cfg_of 1 0 2 false) = Raise ZeroDivisionError.
Proof.
  split; [reflexivity|].
  pose proof (zero_period_raises env0 (cfg_of 1 0 2 false) eq_refl)
    as (_ & _ & Hdue).
  apply train_raises_with_first_epoch; [simpl; lia|reflexivity|].
  vm_compute. reflexivity.
Defined.

(** ** The similarity representation *)

Lemma surrogate_locals (env : Env) (cfg : Config) (m : nat) (mask_fr : bmat)
    (lp : fvec) (sur : fval * SimLocals) :
  surrogate env cfg m mask_fr lp = Ok sur →
  match phi env with
  | Some p =>
      ∃ phi_fr, weighted_features (beta cfg) m (n_batch_fr cfg) (p mask_fr)
                = Ok phi_fr
        ∧ sur.2 = FeatLocals (p (mask_spikes env)) phi_fr
  | None => is_Some (kernel env) ∧ ∃ gdd gff gdf, sur.2 = GramLocals gdd gff gdf
  end.
Proof.
  unfold surrogate. intros H. destruct (phi env) as [p|].
  - apply bind_Ok in H as (phi_fr & Hphi & H).
    apply bind_Ok in H as (v & _ & H). injection H as <-. eauto.
  - destruct (kernel env) as [k|]; [|discriminate]. split; [eauto|].
    destruct (negb (biased cfg));
      apply bind_Ok in H as (v & _ & H); injection H as <-; simpl; eauto.
Qed.

Lemma metrics_record_needs_gramians (env : Env) (cfg : Config) (epoch : nat)
    (self : MMDGLM2) (mask_fr : bmat) (phi_d phi_fr : mat)
    (ml : option (gmap string (list fval))) :
  is_Some (kernel env) →
  metrics_record env cfg epoch self mask_fr (FeatLocals phi_d phi_fr) ml
  = Raise UnboundLocalError.
Proof. intros [k Hk]. unfold metrics_record. by rewrite Hk. Qed.

(** X3.  [phi] and [kernel] exclude each other.  [train] returns only when
    exactly one of them is supplied: with neither, line 102 calls None
    (TypeError); with both, the loss is built from the features, so the
    gramians that the metrics block reads when [kernel] is supplied were
    never bound, and no epoch that records metrics completes. *)
Theorem similarity_is_exclusive (env : Env) (cfg : Config) :
  (∀ out, train env cfg = Ok out →
     (is_Some (phi env) ∧ kernel env = None)
     ∨ (phi env = None ∧ is_Some (kernel env)))
  ∧ (phi env = None → kernel env = None → train env cfg = Raise TypeError)
  ∧ (is_Some (phi env) → is_Some (kernel env) →
     ∀ epoch st st', metrics_due epoch (n_metrics cfg) = Ok true →
       epoch_body env cfg epoch st ≠ Ok st').
Proof.
  assert (Hboth : is_Some (phi env) → is_Some (kernel env) →
     ∀ epoch st st', metrics_due epoch (n_metrics cfg) = Ok true →
       epoch_body env cfg epoch st ≠ Ok st').
  { intros [p Hp] Hk epoch st st' Hdue H.
    apply epoch_body_inv in H
      as (r & r_fr & mask_fr & lp & sur & due & _ & _ & _ & _ & _ & Hsur & _
          & _ & Hdue' & Hrec & _).
    rewrite Hdue in Hdue'. injection Hdue' as <-.
    apply surrogate_locals in Hsur. rewrite Hp in Hsur.
    destruct Hsur as (phi_fr & _ & Hloc). rewrite Hloc in Hrec.
    by rewrite metrics_record_needs_gramians in Hrec. }
  split; [|split; [|exact Hboth]].
  - intros out H. pose proof H as H'.
    apply train_Ok_first_epoch in H as [st1 Hbody].
    destruct (phi env) as [p|] eqn:Hp.
    + left. split; [eauto|]. destruct (kernel env) as [k|] eqn:Hk; [|done].
      exfalso.
      pose proof Hbody as Hinv. apply epoch_body_inv in Hinv
        as (r & r_fr & mask_fr & lp & sur & due & _ & _ & _ & _ & _ & _ & _
            & _ & Hdue & _).
      rewrite (metrics_due_first _ _ Hdue) in Hdue.
      by eapply (Hboth (ltac:(eauto)) (ltac:(eauto)) 0%nat).
    + right. split; [done|].
      apply epoch_body_inv in Hbody
        as (r & r_fr & mask_fr & lp & sur & due & _ & _ & _ & _ & _ & Hsur
            & _).
      apply surrogate_locals in Hsur. rewrite Hp in Hsur. tauto.
  - intros Hp Hk. unfold train, prelude. by rewrite Hp, Hk.
Qed.

Lemma similarity_is_exclusive_witness :
  (∃ out, train env0 cfg0 = Ok out)
  ∧ phi env0 = None ∧ is_Some (kernel env0)
  ∧ ∃ e, train env_both cfg0 = Raise e.
Proof.
  assert (H : ∃ out, train env0 cfg0 = Ok out)
    by (vm_compute; eexists; reflexivity).
  split; [exact H|]. destruct H as [out H].
  destruct (proj1 (similarity_is_exclusive env0 cfg0) out H)
    as [[[p Hp] _]|[Hp Hk]]; [discriminate Hp|].
  split; [exact Hp|]. split; [exact Hk|].
  vm_compute. eexists. reflexivity.
Defined.

(** X4.  In feature-map mode [train] returns only for [n_batch_fr >= 0]
    (line 132 repeats each weight [n_batch_fr] times, a ValueError for a
    negative count) and, with the unbiased estimator, only when
    [n_d * n_batch_fr] is not zero: line 140 divides two Python numbers and
    raises ZeroDivisionError, where the tensor division of line 139 only
    gives [nan]. *)
Theorem feature_mode_needs_a_batch (env : Env) (cfg : Config)
    (out : list fval * list fval * gmap string (list fval)) :
  is_Some (phi env) →
  train env cfg = Ok out →
  (0 <= n_batch_fr cfg)%Z
  ∧ (biased cfg = false → (n_d env * n_batch_fr cfg)%Z ≠ 0%Z).
Proof.
  intros [p Hp] H. apply train_Ok_first_epoch in H as [st1 Hbody].
  apply epoch_body_inv in Hbody
    as (r & r_fr & mask_fr & lp & sur & due & _ & _ & _ & _ & _ & Hsur & _).
  unfold surrogate in Hsur. rewrite Hp in Hsur.
  apply bind_Ok in Hsur as (phi_fr & Hphi & Hsur).
  apply bind_Ok in Hsur as (v & Hv & _). split.
  - unfold weighted_features, weights in Hphi.
    destruct (Z.ltb_spec (n_batch_fr cfg) 0); [discriminate|lia].
  - intros Hb Hzero. rewrite Hb in Hv. simpl in Hv.
    unfold mmd_surr_phi_unbiased in Hv.
    apply bind_Ok in Hv as (lpp & _ & Hv).
    apply bind_Ok in Hv as (cross & _ & Hv).
    apply bind_Ok in Hv as (diag & _ & Hv).
    apply bind_Ok in Hv as (c & Hc & _).
    unfold pydiv in Hc. by rewrite Hzero in Hc.
Qed.

Lemma phi_run_returns : ∃ out, train env_phi (cfg_of 1 25 2 false) = Ok out.
Proof. vm_compute. eexists. reflexivity. Qed.

Lemma feature_mode_needs_a_batch_witness :
  is_Some (phi env_phi)
  ∧ (∃ out, train env_phi (cfg_of 1 25 2 false) = Ok out)
  ∧ (0 <= n_batch_fr (cfg_of 1 25 2 false))%Z
  ∧ train env_phi_empty (cfg_of 1 25 0 false) = Raise ZeroDivisionError
  ∧ train env_phi (cfg_of 1 25 (-1) false) = Raise ValueError.
Proof.
  assert (Hp : is_Some (phi env_phi)) by (simpl; eauto).
  split; [exact Hp|]. split; [exact phi_run_returns|].
  destruct phi_run_returns as [out H].
  split; [exact (proj1 (feature_mode_needs_a_batch env_phi _ out Hp H))|].
  split; vm_compute; reflexivity.
Defined.

(** ** The lists that [train] returns *)

Lemma run_nll (env : Env) (cfg : Config) (k : nat) (st : State) :
  run_epochs env cfg k = Ok st →
  if log_likelihood cfg
  then length (nll st) = k
       ∧ ∀ epoch, (epoch < k)%nat →
           ∃ v, _neg_log_likelihood (model_at env epoch) (dt env)
                  (mask_spikes env) (X_dc env) = Ok v
             ∧ nll st !! epoch = Some v
  else nll st = [].
Proof.
  revert st. induction k as [|k IH]; intros st Hrun.
  - injection Hrun as <-. destruct (log_likelihood cfg); [|done].
    split; [done|]. intros epoch Hlt. lia.
  - apply run_epochs_S in Hrun as (st0 & Hrun0 & Hbody).
    specialize (IH st0 Hrun0).
    apply epoch_body_inv in Hbody
      as (r & r_fr & mask_fr & lp & sur & due & _ & _ & _ & _ & _ & _ & Hloss
          & _).
    destruct (log_likelihood cfg).
    + destruct IH as [IHlen IH].
      destruct Hloss as (v & Hv & _ & ->). split.
      * rewrite length_app. simpl. lia.
      * intros epoch Hlt. destruct (decide (epoch = k)) as [->|Hne].
        -- exists v. split; [done|]. by apply list_lookup_middle.
        -- destruct (IH epoch) as (v' & Hv' & Hn); [lia|].
           exists v'. split; [done|]. by rewrite lookup_app_l by lia.
    + destruct Hloss as [_ ->]. exact IH.
Qed.

(** X5.  The second list that [train] returns is empty without
    [log_likelihood]; with it, it has one entry per epoch, entry [epoch]
    being the negative log-likelihood of the data under the parameters the
    model had at the start of that epoch, before that epoch's optimizer
    step. *)
Theorem nll_list_follows_the_flag (env : Env) (cfg : Config)
    (out : list fval * list fval * gmap string (list fval)) :
  train env cfg = Ok out →
  if log_likelihood cfg
  then length out.1.2 = Z.to_nat (num_epochs cfg)
       ∧ ∀ epoch, (epoch < Z.to_nat (num_epochs cfg))%nat →
           ∃ v, _neg_log_likelihood (model_at env epoch) (dt env)
                  (mask_spikes env) (X_dc env) = Ok v
             ∧ out.1.2 !! epoch = Some v
  else out.1.2 = [].
Proof.
  intros H. apply train_Ok_inv in H as (st & _ & Hrun & _ & _ & ->).
  simpl. by apply run_nll in Hrun.
Qed.

Lemma nll_run_returns : ∃ out, train env0 (cfg_of 1 25 2 true) = Ok out.
Proof. vm_compute. eexists. reflexivity. Qed.

Lemma nll_list_follows_the_flag_witness :
  ∃ out, train env0 (cfg_of 1 25 2 true) = Ok out ∧ length out.1.2 = 3%nat.
Proof.
  destruct nll_run_returns as [out H]. exists out. split; [exact H|].
  exact (proj1 (nll_list_follows_the_flag env0 (cfg_of 1 25 2 true) out H)).
Defined.

(** ** The metrics mapping *)

Lemma append_items_spec (items : list (string * fval))
    (d : gmap string (list fval)) (r : option (gmap string (list fval))) :
  NoDup items.*1 →
  append_items items (Some d) = Ok r →
  ∃ d', r = Some d'
    ∧ dom d' = dom d
    ∧ (∀ key val, (key, val) ∈ items →
         ∃ vals, d !! key = Some vals ∧ d' !! key = Some (vals ++ [val]))
    ∧ (∀ key, key ∉ items.*1 → d' !! key = d !! key).
Proof.
  revert d. induction items as [|[k0 v0] items IH]; intros d Hnd H.
  - injection H as <-. exists d. split; [done|]. split; [done|].
    split; [|done]. intros key val Hin. by apply elem_of_nil in Hin.
  - simpl in H. apply NoDup_cons in Hnd as [Hk0 Hnd].
    destruct (d !! k0) as [vals0|] eqn:Hd0; [|discriminate].
    destruct (IH _ Hnd H) as (d' & -> & Hdom & Hin & Hout).
    exists d'. split; [done|]. split; [|split].
    + rewrite Hdom. apply dom_insert_lookup_L. eauto.
    + intros key val Hkv. apply elem_of_cons in Hkv as [[= -> ->]|Hkv].
      * exists vals0. split; [done|].
        rewrite (Hout k0 Hk0). apply lookup_insert_eq.
      * destruct (Hin key val Hkv) as (vals & Hvals & Hd').
        assert (key ≠ k0).
        { intros ->. apply Hk0. apply list_elem_of_fmap.
          by exists (k0, val). }
        rewrite lookup_insert_ne in Hvals by done. eauto.
    + intros key Hkey. simpl in Hkey.
      apply not_elem_of_cons in Hkey as [Hne Hkey].
      rewrite (Hout key Hkey). by rewrite lookup_insert_ne.
Qed.

Lemma append_items_unbound (items : list (string * fval))
    (r : option (gmap string (list fval))) :
  append_items items None = Ok r → items = [] ∧ r = None.
Proof. destruct items as [|[key val] items]; simpl; [|done]. by intros [= <-]. Qed.

Lemma metrics_record_accumulates (env : Env) (cfg : Config) (epoch : nat)
    (self : MMDGLM2) (mask_fr : bmat) (loc : SimLocals)
    (d : gmap string (list fval)) (ml' : option (gmap string (list fval))) :
  epoch ≠ 0%nat →
  metrics_record env cfg epoch self mask_fr loc (Some d) = Ok ml' →
  ∃ d' mmd, ml' = Some d'
    ∧ dom d' = dom d
    ∧ dom (callback_metrics env self mask_fr) ⊆ dom d
    ∧ (∃ vals, d !! "mmd"%string = Some vals
         ∧ d' !! "mmd"%string = Some (vals ++ [mmd]))
    ∧ (∀ key val, key ≠ "mmd"%string →
         callback_metrics env self mask_fr !! key = Some val →
         ∃ vals, d !! key = Some vals ∧ d' !! key = Some (vals ++ [val]))
    ∧ (∀ key, key ≠ "mmd"%string →
         callback_metrics env self mask_fr !! key = None →
         d' !! key = d !! key).
Proof.
  intros Hne H. unfold metrics_record in H.
  apply bind_Ok in H as (mmd & _ & H).
  rewrite decide_False in H by done.
  fold (callback_metrics env self mask_fr) in H.
  set (M := callback_metrics env self mask_fr) in *.
  apply append_items_spec in H as (d' & -> & Hdom & Hin & Hout);
    [|apply NoDup_fst_map_to_list].
  exists d', mmd. split; [done|]. split; [done|].
  assert (Hkey : ∀ key val, <["mmd"%string := mmd]> M !! key = Some val →
            ∃ vals, d !! key = Some vals ∧ d' !! key = Some (vals ++ [val])).
  { intros key val Hkv. apply Hin. by apply elem_of_map_to_list. }
  split; [|split; [|split]].
  - intros key Hkey'. apply elem_of_dom in Hkey' as [val Hval].
    apply elem_of_dom. destruct (decide (key = "mmd"%string)) as [->|Hk].
    + destruct (Hkey "mmd"%string mmd) as (vals & -> & _); [|eauto].
      apply lookup_insert_eq.
    + destruct (Hkey key val) as (vals & -> & _); [|eauto].
      by rewrite lookup_insert_ne.
  - apply Hkey. apply lookup_insert_eq.
  - intros key val Hk Hval. apply Hkey. by rewrite lookup_insert_ne.
  - intros key Hk Hnone. apply Hout. intros Hin'.
    apply list_elem_of_fmap in Hin' as ([key' val] & -> & Hin').
    apply elem_of_map_to_list in Hin'. simpl in *.
    rewrite lookup_insert_ne in Hin' by done. congruence.
Qed.

(** X6.  On a recording epoch after the first, [metrics_list] keeps its
    keys: every value of the epoch's metrics (the callback's, and the
    ['mmd'] the loop adds) is appended to the list of its key, the other
    lists are untouched, and a key that the first epoch did not have makes
    line 235 raise KeyError, so a completed record implies that the
    callback's keys are among the known ones. *)
Theorem metrics_accumulate_per_key (env : Env) (cfg : Config) (epoch : nat)
    (self : MMDGLM2) (mask_fr : bmat) (loc : SimLocals)
    (d : gmap string (list fval)) (ml' : option (gmap string (list fval))) :
  epoch ≠ 0%nat →
  metrics_record env cfg epoch self mask_fr loc (Some d) = Ok ml' →
  ∃ d' mmd, ml' = Some d'
    ∧ dom d' = dom d
    ∧ dom (callback_metrics env self mask_fr) ⊆ dom d
    ∧ (∃ vals, d !! "mmd"%string = Some vals
         ∧ d' !! "mmd"%string = Some (vals ++ [mmd]))
    ∧ (∀ key val, key ≠ "mmd"%string →
         callback_metrics env self mask_fr !! key = Some val →
         ∃ vals, d !! key = Some vals ∧ d' !! key = Some (vals ++ [val]))
    ∧ (∀ key, key ≠ "mmd"%string →
         callback_metrics env self mask_fr !! key = None →
         d' !! key = d !! key).
Proof. apply metrics_record_accumulates. Qed.

Lemma metrics_accumulate_per_key_witness :
  1%nat ≠ 0%nat
  ∧ ∃ ml', metrics_record env0 cfg0 1 model0 [[true]] (GramLocals [] [] [])
             (Some {[ "mmd"%string := [Fin 1] ]}) = Ok ml'
      ∧ ∃ d' mmd, ml' = Some d'
          ∧ d' !! "mmd"%string = Some ([Fin 1] ++ [mmd]).
Proof.
  assert (Hne : 1%nat ≠ 0%nat) by lia.
  assert (H : ∃ ml', metrics_record env0 cfg0 1 model0 [[true]]
                       (GramLocals [] [] [])
                       (Some {[ "mmd"%string := [Fin 1] ]}) = Ok ml')
    by (vm_compute; eexists; reflexivity).
  split; [exact Hne|]. destruct H as [ml' H]. exists ml'.
  split; [exact H|].
  destruct (metrics_accumulate_per_key env0 cfg0 1 model0 [[true]]
              (GramLocals [] [] []) _ ml' Hne H)
    as (d' & mmd & -> & _ & _ & (vals & Hvals & Hd') & _).
  exists d', mmd. split; [reflexivity|].
  rewrite lookup_singleton_eq in Hvals. injection Hvals as <-. exact Hd'.
Defined.


Lemma metrics_due_spec (epoch : nat) (period : Z) (due : bool) :
  metrics_due epoch period = Ok due →
  due = bool_decide (Z.of_nat epoch mod period = 0)%Z.
Proof.
  unfold metrics_due. destruct (period =? 0)%Z; [discriminate|].
  intros [= <-]. destruct (Z.eqb_spec (Z.of_nat epoch mod period) 0) as [H|H].
  - by rewrite bool_decide_eq_true_2.
  - by rewrite bool_decide_eq_false_2.
Qed.

Lemma recorded_epochs_S (period : Z) (k : nat) :
  recorded_epochs period (S k)
  = (recorded_epochs period k
     + if bool_decide (Z.of_nat k mod period = 0)%Z then 1 else 0)%nat.
Proof.
  unfold recorded_epochs. rewrite seq_S, filter_app, length_app. f_equal.
  simpl. case_bool_decide as H.
  - by rewrite filter_cons_True.
  - by rewrite filter_cons_False.
Qed.

Lemma first_epoch_mask (env : Env) (cfg : Config) (st1 : State) :
  epoch_body env cfg 0 init_state = Ok st1 →
  torch_cat1 (mask_spikes_fr_list st1) = Ok (sample_at env 0).1.
Proof.
  intros H. apply epoch_body_inv in H
    as (r & r_fr & mask_fr & lp & sur & due & _ & Hbuf & _).
  unfold buffer_update in Hbuf. simpl in Hbuf.
  destruct (n_iterations_store cfg <=? Z.of_nat 0)%Z; [discriminate|].
  by injection Hbuf as _ <-.
Qed.

Lemma run_metrics (env : Env) (cfg : Config) (k : nat) (st : State) :
  run_epochs env cfg (S k) = Ok st →
  ∃ d vals, metrics_list st = Some d
    ∧ dom d = {["mmd"%string]}
              ∪ dom (callback_metrics env (model_at env 0) (sample_at env 0).1)
    ∧ d !! "mmd"%string = Some vals
    ∧ length vals = recorded_epochs (n_metrics cfg) (S k).
Proof.
  revert st. induction k as [|k IH]; intros st Hrun;
    apply run_epochs_S in Hrun as (st0 & Hrun0 & Hbody).
  - injection Hrun0 as <-.
    pose proof (first_epoch_mask _ _ _ Hbody) as Hmask.
    apply epoch_body_inv in Hbody
      as (r & r_fr & mask_fr & lp & sur & due & _ & _ & _ & Hcat & _ & _ & _
          & _ & Hdue & Hrec & _).
    rewrite Hmask in Hcat. injection Hcat as <-.
    rewrite (metrics_due_first _ _ Hdue) in Hrec.
    unfold metrics_record in Hrec.
    apply bind_Ok in Hrec as (mmd & _ & Hrec). simpl in Hrec.
    fold (callback_metrics env (model_at env 0) (sample_at env 0).1) in Hrec.
    injection Hrec as <-. eexists _, [mmd]. split; [done|].
    split; [by rewrite dom_fmap_L, dom_insert_L|].
    split; [by rewrite lookup_fmap, lookup_insert_eq|].
    rewrite recorded_epochs_S. by simpl.
  - destruct (IH st0 Hrun0) as (d & vals & Hd & Hdom & Hmmd & Hlen).
    apply epoch_body_inv in Hbody
      as (r & r_fr & mask_fr & lp & sur & due & _ & _ & _ & _ & _ & _ & _
          & _ & Hdue & Hrec & _).
    rewrite (recorded_epochs_S _ (S k)).
    rewrite <- (metrics_due_spec _ _ _ Hdue). destruct due.
    + rewrite Hd in Hrec.
      apply metrics_record_accumulates in Hrec
        as (d' & mmd & Hd' & Hdom' & _ & (vals' & Hvals' & Hmmd') & _);
        [|done].
      rewrite Hmmd in Hvals'. injection Hvals' as <-.
      exists d', (vals ++ [mmd]). rewrite <- Hd'.
      split; [done|]. split; [congruence|]. split; [done|].
      rewrite length_app, Hlen. reflexivity.
    + exists d, vals. rewrite Hrec. repeat split; try done.
      rewrite Hlen. cbv iota. lia.
Qed.

(** X7.  The mapping that [train] returns has the keys of the first
    epoch's metrics (the callback's on the first minibatch, and ['mmd']),
    whatever later epochs report, and its ['mmd'] list has one value per
    epoch whose index is a multiple of [n_metrics]. *)
Theorem returned_metrics_keys (env : Env) (cfg : Config)
    (out : list fval * list fval * gmap string (list fval)) :
  train env cfg = Ok out →
  dom out.2 = {["mmd"%string]}
              ∪ dom (callback_metrics env (model_at env 0) (sample_at env 0).1)
  ∧ ∃ vals, out.2 !! "mmd"%string = Some vals
      ∧ length vals
        = recorded_epochs (n_metrics cfg) (Z.to_nat (num_epochs cfg)).
Proof.
  intros H. apply train_Ok_inv in H as (st & _ & Hrun & Hk & Hml & _).
  destruct (Z.to_nat (num_epochs cfg)) as [|k]; [lia|].
  destruct (run_metrics _ _ _ _ Hrun) as (d & vals & Hd & Hdom & Hmmd & Hlen).
  rewrite Hd in Hml. injection Hml as <-. eauto.
Qed.

Lemma every_epoch_run_returns : ∃ out, train env0 (cfg_of 1 2 2 false) = Ok out.
Proof. vm_compute. eexists. reflexivity. Qed.

Lemma returned_metrics_keys_witness :
  ∃ out, train env0 (cfg_of 1 2 2 false) = Ok out
    ∧ dom out.2 = {["mmd"%string]} ∪ ∅
    ∧ ∃ vals, out.2 !! "mmd"%string = Some vals ∧ length vals = 2%nat.
Proof.
  destruct every_epoch_run_returns as [out H]. exists out.
  split; [exact H|].
  destruct (returned_metrics_keys env0 (cfg_of 1 2 2 false) out H)
    as (Hdom & vals & Hvals & Hlen).
  split; [exact Hdom|]. exists vals. split; [exact Hvals|]. exact Hlen.
Defined.

(** ** The buffers of a run *)

Lemma run_entries (env : Env) (cfg : Config) (k : nat) (st : State) :
  run_epochs env cfg k = Ok st →
  ∃ entries : list (mat * bmat),
    entries.*2 = (λ epoch, (sample_at env epoch).1) <$> seq 0 k
    ∧ Forall2 (λ r epoch,
                 rate (model_at env epoch) (sample_at env epoch).2 = Ok r)
        entries.*1 (seq 0 k)
    ∧ push_all (n_iterations_store cfg) entries [] []
      = Ok (r_fr_list st, mask_spikes_fr_list st).
Proof.
  revert st. induction k as [|k IH]; intros st Hrun.
  - injection Hrun as <-. exists []. repeat split; constructor.
  - apply run_epochs_S in Hrun as (st0 & Hrun0 & Hbody).
    destruct (IH st0 Hrun0) as (entries & Hmasks & Hrates & Hpush).
    apply epoch_body_inv in Hbody as (r & _ & _ & _ & _ & _ & Hr & Hbuf & _).
    exists (entries ++ [(r, (sample_at env k).1)]).
    rewrite !fmap_app, seq_S, fmap_app. simpl. split; [by rewrite Hmasks|].
    split.
    + apply Forall2_app; [done|]. by repeat constructor.
    + by rewrite push_all_snoc, Hpush.
Qed.

(** X8.  In a run with a capacity of at least 1, after [k] epochs the
    buffers hold the minibatches of the last [min k capacity] epochs, oldest
    first: the masks drawn in those epochs, and the rates as they were
    computed in their own epoch, from the parameters the model had then
    (they are not recomputed when the parameters move). *)
Theorem buffer_holds_latest_epochs (env : Env) (cfg : Config) (k : nat)
    (st : State) :
  (1 <= n_iterations_store cfg)%Z →
  run_epochs env cfg k = Ok st →
  mask_spikes_fr_list st
  = (λ epoch, (sample_at env epoch).1)
    <$> seq (k - Z.to_nat (n_iterations_store cfg))
          (k `min` Z.to_nat (n_iterations_store cfg))
  ∧ Forall2 (λ r epoch,
               rate (model_at env epoch) (sample_at env epoch).2 = Ok r)
      (r_fr_list st)
      (seq (k - Z.to_nat (n_iterations_store cfg))
         (k `min` Z.to_nat (n_iterations_store cfg))).
Proof.
  intros Hcap Hrun.
  destruct (run_entries _ _ _ _ Hrun) as (entries & Hmasks & Hrates & Hpush).
  rewrite (push_all_from_empty _ Hcap) in Hpush.
  injection Hpush as <- <-.
  assert (Hlen : length entries = k).
  { rewrite <- (length_fmap snd), Hmasks, length_fmap. apply length_seq. }
  rewrite Hlen.
  assert (Hseq : drop (k - Z.to_nat (n_iterations_store cfg)) (seq 0 k)
                 = seq (k - Z.to_nat (n_iterations_store cfg))
                     (k `min` Z.to_nat (n_iterations_store cfg))).
  { rewrite drop_seq. f_equal. lia. }
  split.
  - by rewrite Hmasks, <- fmap_drop, Hseq.
  - rewrite <- Hseq. by apply Forall2_drop.
Qed.

Lemma history_run_completes :
  ∃ st, run_epochs env0 (cfg_history 2 false) 3 = Ok st.
Proof. vm_compute. eexists. reflexivity. Qed.

Lemma buffer_holds_latest_epochs_witness :
  (1 <= n_iterations_store (cfg_history 2 false))%Z
  ∧ ∃ st, run_epochs env0 (cfg_history 2 false) 3 = Ok st
      ∧ mask_spikes_fr_list st = [[[false; true]]; [[false; true]]].
Proof.
  assert (Hcap : (1 <= n_iterations_store (cfg_history 2 false))%Z)
    by (simpl; lia).
  split; [exact Hcap|].
  destruct history_run_completes as [st Hst]. exists st.
  split; [exact Hst|].
  exact (proj1 (buffer_holds_latest_epochs env0 _ 3 st Hcap Hst)).
Defined.

(** ** Concatenation along the trial axis *)

Lemma hcat_shape {A : Type} (T K1 K2 : nat) (a c : list (list A)) :
  has_shape2 T K1 a → has_shape2 T K2 c →
  hcat a c = Ok (zip_with app a c)
  ∧ has_shape2 T (K1 + K2) (zip_with app a c)
  ∧ ∀ t, nth t (zip_with app a c) [] = nth t a [] ++ nth t c [].
Proof.
  intros [Ha Hra] [Hc Hrc]. unfold hcat.
  rewrite decide_True by congruence. split; [done|]. split.
  - split; [rewrite length_zip_with; lia|]. clear Ha Hc.
    revert c Hrc. induction Hra as [|ra a Hlen _ IH]; intros c Hrc;
      [by destruct c|].
    destruct Hrc as [|rc c Hlen' Hrc]; [done|]. simpl. constructor.
    + rewrite length_app. lia.
    + by apply IH.
  - assert (Hlen : length a = length c) by congruence. clear Ha Hc Hra Hrc.
    revert c Hlen. induction a as [|ra a IH]; intros [|rc c] Hlen t;
      simpl in *; try lia.
    + by destruct t.
    + destruct t as [|t]; [done|]. apply IH. lia.
Qed.

Lemma cat_onto_shape {A : Type} (T K Ka : nat) (ts : list (list (list A)))
    (acc : list (list A)) :
  has_shape2 T Ka acc → Forall (has_shape2 T K) ts →
  ∃ c, cat_onto acc ts = Ok c
    ∧ has_shape2 T (Ka + length ts * K) c
    ∧ ∀ t, nth t c [] = nth t acc [] ++ concat ((λ m, nth t m []) <$> ts).
Proof.
  intros Hacc Hts. revert acc Ka Hacc.
  induction Hts as [|m ts Hm _ IH]; intros acc Ka Hacc.
  - exists acc. simpl. rewrite Nat.add_0_r. split; [done|]. split; [done|].
    intros t. by rewrite app_nil_r.
  - destruct (hcat_shape T Ka K acc m Hacc Hm) as (Hcat & Hshape & Hrows).
    destruct (IH _ _ Hshape) as (c & Hc & Hcshape & Hcrows).
    exists c. simpl. rewrite Hcat. simpl. split; [done|]. split.
    + by replace (Ka + (K + length ts * K))%nat
        with (Ka + K + length ts * K)%nat by lia.
    + intros t. by rewrite Hcrows, Hrows, <- app_assoc.
Qed.

(** X9.  [torch.cat] of [m >= 1] buffered tensors with [T] time bins and
    [K] trials each gives a tensor with [T] time bins and [m * K] trials
    whose row for a time bin is the concatenation of the entries' rows in
    buffer order, the oldest entry's trials first. *)
Theorem torch_cat1_shape {A : Type} (T K : nat) (ts : list (list (list A))) :
  ts ≠ [] → Forall (has_shape2 T K) ts →
  ∃ c, torch_cat1 ts = Ok c
    ∧ has_shape2 T (length ts * K) c
    ∧ ∀ t, nth t c [] = concat ((λ m, nth t m []) <$> ts).
Proof.
  intros Hne Hts. destruct Hts as [|m ts Hm Hts]; [done|].
  destruct (cat_onto_shape T K K ts m Hm Hts) as (c & Hc & Hshape & Hrows).
  exists c. simpl. split; [done|]. split; [done|].
  intros t. by rewrite Hrows.
Qed.

Lemma torch_cat1_shape_witness :
  [[[true; false]]; [[false; true]]] ≠ []
  ∧ Forall (has_shape2 1 2) [[[true; false]]; [[false; true]]]
  ∧ ∃ c, torch_cat1 [[[true; false]]; [[false; true]]] = Ok c
      ∧ has_shape2 1 (2 * 2) c
      ∧ nth 0 c [] = [true; false; false; true].
Proof.
  assert (Hne : [[[true; false]]; [[false; true]]] ≠ @nil bmat) by done.
  assert (Hts : Forall (has_shape2 1 2) [[[true; false]]; [[false; true]]]).
  { repeat constructor. }
  split; [exact Hne|]. split; [exact Hts|].
  destruct (torch_cat1_shape 1 2 _ Hne Hts) as (c & Hc & Hshape & Hrows).
  exists c. split; [exact Hc|]. split; [exact Hshape|]. exact (Hrows 0%nat).
Defined.

(** ** The weights without decay *)

Lemma constant_blocks (f : nat → R) (n m s : nat) :
  (∀ i, f i = 1) →
  concat ((λ i, replicate n (f i)) <$> seq s m) = replicate (m * n) 1.
Proof.
  intros Hf. revert s. induction m as [|m IH]; intros s; csimpl; [done|].
  by rewrite IH, Hf, replicate_add.
Qed.

Lemma weights_length (beta : R) (m : nat) (n : Z) :
  (0 <= n)%Z →
  ∃ w, weights beta m n = Ok w ∧ length w = (m * Z.to_nat n)%nat.
Proof.
  intros Hn. unfold weights. destruct (Z.ltb_spec n 0); [lia|].
  eexists. split; [reflexivity|].
  generalize 0%nat. induction m as [|m IH]; intros s; csimpl; [done|].
  by rewrite length_app, length_replicate, IH.
Qed.

Lemma scale_by_ones (F N : nat) (phi_fr : mat) :
  has_shape2 F N phi_fr →
  bzip2 Rmult phi_fr (as_row (replicate N 1)) = Ok phi_fr.
Proof.
  intros [_ Hrows]. unfold bzip2, as_row.
  assert (Hmap : mapM (λ row, bzip (λ x y, Ok (x * y)) row (replicate N 1))
                   phi_fr = Ok phi_fr).
  { rewrite <- (list_fmap_id phi_fr) at 2. apply mapM_Forall_pure.
    eapply Forall_impl; [exact Hrows|]. intros row Hrow. simpl.
    rewrite bzip_same_length by (by rewrite length_replicate).
    by rewrite zip_with_ones. }
  unfold bzip at 1.
  destruct (decide (length phi_fr = length [replicate N 1])) as [Hone|Hne].
  - by destruct phi_fr as [|row [|row' phi_fr]].
  - by destruct phi_fr as [|row [|row' phi_fr]].
Qed.

(** X10.  For [n_batch_fr >= 0] the weight vector has one entry per trial
    of the concatenated batch, [m * n_batch_fr]; with [beta = 1], the
    default, every weight is 1 whatever the age and the weighting returns
    the features of a batch of that many trials unchanged. *)
Theorem no_decay_is_identity (m : nat) (n : Z) :
  (0 <= n)%Z →
  (∀ beta, ∃ w, weights beta m n = Ok w ∧ length w = (m * Z.to_nat n)%nat)
  ∧ weights 1 m n = Ok (replicate (m * Z.to_nat n) 1)
  ∧ ∀ F phi_fr, has_shape2 F (m * Z.to_nat n) phi_fr →
      weighted_features 1 m n phi_fr = Ok phi_fr.
Proof.
  intros Hn.
  assert (Hw : weights 1 m n = Ok (replicate (m * Z.to_nat n) 1)).
  { unfold weights. destruct (Z.ltb_spec n 0); [lia|].
    by rewrite (constant_blocks (λ i, 1 ^ i)) by apply pow1. }
  split; [intros beta; by apply weights_length|]. split; [exact Hw|].
  intros F phi_fr Hshape. unfold weighted_features. rewrite Hw. simpl.
  by eapply scale_by_ones.
Qed.

Lemma no_decay_is_identity_witness :
  (0 <= 2)%Z
  ∧ weights 1 3 2 = Ok [1; 1; 1; 1; 1; 1]
  ∧ weighted_features 1 3 2 [[1; 2; 3; 4; 5; 6]] = Ok [[1; 2; 3; 4; 5; 6]].
Proof.
  assert (Hn : (0 <= 2)%Z) by lia.
  destruct (no_decay_is_identity 3 2 Hn) as (_ & Hw & Hid).
  split; [exact Hn|]. split; [exact Hw|].
  apply (Hid 1%nat). split; [reflexivity|]. repeat constructor.
Defined.

(** ** The nonlinearities *)



(** ** The per-trial log-probability *)

Lemma log_arg_eps_pos (dt x : R) :
  0 <= dt → 0 <= x → 0 < 1 - exp (- dt * x) + eps.
Proof.
  intros Hdt Hx. pose proof eps_pos as Heps.
  assert (Hle : exp (- dt * x) <= 1).
  { destruct (Rle_lt_or_eq_dec (- dt * x) 0) as [Hlt|Heq]; [nra| |].
    - left. rewrite <- exp_0. by apply exp_increasing.
    - right. rewrite Heq. apply exp_0. }
  lra.
Qed.

Lemma spiking_eps_row (dt : R) (row : vec) (srow : list bool) :
  0 <= dt → Forall (λ x, 0 <= x) row →
  zip_with (λ l s, fmul l (Fin (double s)))
    ((λ x, flog (1 - exp (- dt * x) + eps)) <$> row) srow
  = Fin <$> zip_with (λ x s, ln (1 - exp (- dt * x) + eps) * double s)
              row srow.
Proof.
  intros Hdt Hrow. revert srow.
  induction Hrow as [|x row Hx _ IH]; intros [|s srow]; csimpl; [done..|].
  rewrite IH. by rewrite (flog_pos _ (log_arg_eps_pos dt x Hdt Hx)).
Qed.

Lemma spiking_eps (dt : R) (r : mat) (mask : bmat) :
  0 <= dt → Forall (Forall (λ x, 0 <= x)) r →
  zip_with (zip_with (λ l s, fmul l (Fin (double s))))
    (fmap (M:=list) (fmap (M:=list) (λ x, flog (1 - exp (- dt * x) + eps))) r)
    mask
  = to_fmat (zip_with (zip_with
               (λ x s, ln (1 - exp (- dt * x) + eps) * double s)) r mask).
Proof.
  intros Hdt Hr. revert mask. unfold to_fmat.
  induction Hr as [|row r Hrow _ IH]; intros [|srow mask]; csimpl; [done..|].
  by rewrite IH, spiking_eps_row.
Qed.

Lemma column_of_rows {A : Type} (K : nat) (L : list (list A)) (k : nat)
    (d : A) :
  Forall (λ row, length row = K) L → (k < K)%nat →
  omap (λ row, row !! k) L = (λ row, nth k row d) <$> L.
Proof.
  intros HL Hk. induction HL as [|row L Hrow _ IH]; csimpl; [done|].
  destruct (lookup_lt_is_Some_2 row k) as [x Hx]; [lia|].
  by rewrite Hx, IH, (nth_lookup_Some _ _ _ _ Hx).
Qed.

Lemma column_of_Fin (L : mat) (k : nat) :
  omap (λ row, row !! k) (to_fmat L) = Fin <$> omap (λ row, row !! k) L.
Proof.
  unfold to_fmat. induction L as [|row L IH]; csimpl; [done|].
  rewrite list_lookup_fmap, IH. by destruct (row !! k).
Qed.

Lemma fsum_axis0_Fin (L : mat) : fsum_axis0 (to_fmat L) = Fin <$> sum_axis0 L.
Proof.
  unfold fsum_axis0, sum_axis0, transpose.
  assert (ncols (to_fmat L) = ncols L) as ->.
  { destruct L as [|row L]; [done|]. simpl. apply length_fmap. }
  rewrite <- !list_fmap_compose. apply list_fmap_ext. intros i k _. simpl.
  by rewrite column_of_Fin, fsum_Fin.
Qed.

Lemma nth_column (L : mat) (k t : nat) :
  nth t ((λ row, nth k row 0) <$> L) 0 = nth k (nth t L []) 0.
Proof.
  revert t. induction L as [|row L IH]; intros [|t]; csimpl;
    try done; by destruct k.
Qed.

Lemma sum_axis0_spec (T K : nat) (L : mat) :
  (1 <= T)%nat → has_shape2 T K L →
  sum_axis0 L = (λ k, bigsum T (λ t, entry_at L t k)) <$> seq 0 K.
Proof.
  intros HT [Hlen Hrows]. unfold sum_axis0, transpose.
  assert (ncols L = K) as ->.
  { destruct Hrows as [|row L Hrow _]; [simpl in Hlen; lia|done]. }
  rewrite <- list_fmap_compose. apply list_fmap_ext. intros i k Hk. simpl.
  apply lookup_seq in Hk as [-> Hk].
  rewrite (column_of_rows K L _ 0) by (done || lia).
  rewrite rsum_bigsum, length_fmap, Hlen. apply bigsum_ext. intros t _.
  apply nth_column.
Qed.

Lemma zip_with_fmap_same {A B C D : Type} (g : B → C → D) (f1 : A → B)
    (f2 : A → C) (l : list A) :
  zip_with g (f1 <$> l) (f2 <$> l) = (λ x, g (f1 x) (f2 x)) <$> l.
Proof. induction l as [|x l IH]; csimpl; [done|]. by rewrite IH. Qed.

Lemma entry_at_zip_with (f : R → bool → R) (T K : nat) (r : mat) (mask : bmat)
    (t k : nat) :
  has_shape2 T K r → has_shape2 T K mask → (t < T)%nat → (k < K)%nat →
  entry_at (zip_with (zip_with f) r mask) t k
  = f (entry_at r t k) (nth k (nth t mask []) false).
Proof.
  intros Hr Hmask Ht Hk. unfold entry_at.
  rewrite (nth_zip_with _ _ _ t [] [] []) by (destruct Hr, Hmask; lia).
  by rewrite (nth_zip_with _ _ _ k 0 false 0)
    by (rewrite (shape2_row T K) by done; lia).
Qed.

(** X12.  For a bin width [dt >= 0] and rates that are not negative (every
    rate the model computes is positive), on a rate and a mask of the same
    shape with at least one time bin, [log_proba] of line 127 has one finite
    entry per trial:
    [Σ_t log(1 - exp(-dt·r_tk) + 1e-24)·s_tk - dt·Σ_t r_tk·(1 - s_tk)].
    The constant under the logarithm keeps it defined also where the rate
    is 0. *)
Theorem log_proba_closed_form (dt : R) (T K : nat) (r : mat) (mask : bmat) :
  0 <= dt → (1 <= T)%nat →
  has_shape2 T K r → has_shape2 T K mask →
  Forall (Forall (λ x, 0 <= x)) r →
  log_proba dt r mask
  = Ok ((λ k, Fin (log_proba_spec dt T (entry_at r) (spike_at mask) k))
        <$> seq 0 K).
Proof.
  intros Hdt HT Hr Hmask Hpos. unfold log_proba.
  rewrite !(bzip2_same_shape _ T K) by (try apply shape2_fmap; done). simpl.
  rewrite spiking_eps by done. rewrite fsum_axis0_Fin.
  rewrite !(sum_axis0_spec T K) by (done || by apply shape2_zip_with).
  rewrite <- list_fmap_compose.
  rewrite bzip_same_length by (by rewrite !length_fmap).
  f_equal. rewrite zip_with_fmap_same. apply list_fmap_ext.
  intros i k Hk. apply lookup_seq in Hk as [-> Hk]. simpl.
  f_equal. unfold log_proba_spec. f_equal; [|f_equal];
    apply bigsum_ext; intros t Ht;
    by rewrite (entry_at_zip_with _ T K).
Qed.

Lemma log_proba_closed_form_witness :
  0 <= 1 ∧ (1 <= 1)%nat
  ∧ log_proba 1 [[0; 2]] [[true; false]]
    = Ok ((λ k, Fin (log_proba_spec 1 1 (entry_at [[0; 2]])
                       (spike_at [[true; false]]) k)) <$> seq 0 2).
Proof.
  assert (Hdt : 0 <= 1) by lra. assert (HT : (1 <= 1)%nat) by lia.
  split; [exact Hdt|]. split; [exact HT|].
  apply (log_proba_closed_form 1 1 2 _ _ Hdt HT).
  - split; [reflexivity|]. repeat constructor.
  - split; [reflexivity|]. repeat constructor.
  - repeat constructor; lra.
Defined.

(** ** The sign of the negative log-likelihood *)







(** ** Control variates without history *)

(** X14.  With [n_iterations_store = 1], in every epoch the mask that line
    172 hands to [_score] is the mask of the fresh minibatch, next to its
    own design matrix: without history the scores are those of the
    minibatch just drawn. *)
Theorem scores_of_fresh_minibatch (env : Env) (cfg : Config) (k : nat)
    (st : State) (r : mat) :
  n_iterations_store cfg = 1%Z →
  run_epochs env cfg k = Ok st →
  rate (model_at env k) (sample_at env k).2 = Ok r →
  score_arguments env cfg k st
  = Ok ((sample_at env k).1, (sample_at env k).2).
Proof.
  intros Hcap Hrun Hr. unfold score_arguments, forward.
  rewrite Hr, Hcap. simpl. destruct k as [|k].
  - by injection Hrun as <-.
  - destruct (run_capacity_one env cfg k st Hcap Hrun) as (r0 & _ & -> & ->).
    reflexivity.
Qed.

Lemma scores_of_fresh_minibatch_witness :
  n_iterations_store (cfg_history 1 true) = 1%Z
  ∧ ∃ st, run_epochs env0 (cfg_history 1 true) 1 = Ok st
      ∧ score_arguments env0 (cfg_history 1 true) 1 st
        = Ok ([[false; true]], [[[1]; [1]]]).
Proof.
  split; [reflexivity|].
  assert (H : ∃ st, run_epochs env0 (cfg_history 1 true) 1 = Ok st)
    by (vm_compute; eexists; reflexivity).
  destruct H as [st Hst]. exists st. split; [exact Hst|].
  exact (scores_of_fresh_minibatch env0 (cfg_history 1 true) 1 st
           [[exp (1 * 0 + 0); exp (1 * 0 + 0)]] eq_refl Hst eq_refl).
Defined.

(** ** What kernel mode does not read *)





(** ** The score *)













(** ** The gramians that the metrics read *)

Lemma fill_diagonal_0_entries (g : mat) (i j : nat) :
  entry_at (fill_diagonal_0 g) i j
  = if decide (i = j) then 0 else entry_at g i j.
Proof.
  unfold entry_at, fill_diagonal_0.
  rewrite !(nth_lookup _ i), list_lookup_imap.
  destruct (g !! i) as [row|] eqn:Hrow; csimpl.
  - rewrite !(nth_lookup _ j). destruct (decide (i = j)) as [<-|Hne].
    + destruct (decide (i < length row)%nat) as [Hlt|Hge].
      * by rewrite list_lookup_insert_eq.
      * rewrite (lookup_ge_None_2 (<[i:=0]> row) i); [done|].
        rewrite length_insert. lia.
    + by rewrite list_lookup_insert_ne.
  - destruct (decide (i = j)); by destruct j.
Qed.

Lemma surrogate_gramians (env : Env) (cfg : Config) (m : nat) (mask_fr : bmat)
    (lp : fvec) (sur : fval * SimLocals) (k : bmat → bmat → mat) :
  phi env = None → kernel env = Some k →
  surrogate env cfg m mask_fr lp = Ok sur →
  sur.2 = GramLocals (k (mask_spikes env) (mask_spikes env))
            (if biased cfg then k mask_fr mask_fr
             else fill_diagonal_0 (k mask_fr mask_fr))
            (k (mask_spikes env) mask_fr).
Proof.
  intros Hphi Hk H. unfold surrogate in H. rewrite Hphi, Hk in H.
  destruct (biased cfg); simpl in H;
    apply bind_Ok in H as (v & _ & [= <-]); reflexivity.
Qed.

Lemma metrics_record_mmd (env : Env) (cfg : Config) (epoch : nat)
    (self : MMDGLM2) (mask_fr : bmat) (loc : SimLocals)
    (ml ml' : option (gmap string (list fval))) :
  metrics_record env cfg epoch self mask_fr loc ml = Ok ml' →
  ∃ d' vals mmd, ml' = Some d'
    ∧ d' !! "mmd"%string = Some (vals ++ [mmd])
    ∧ match kernel env, loc with
      | Some _, GramLocals gdd gff gdf =>
          mmd = _mmd_from_gramians env gdd gff gdf (biased cfg)
      | None, FeatLocals phi_d phi_fr =>
          mmd = _mmd_from_features env phi_d
                  (last_cols (n_batch_fr cfg) <$> phi_fr) (biased cfg)
      | _, _ => False
      end.
Proof.
  intros H. unfold metrics_record in H.
  apply bind_Ok in H as (mmd & Hmmd & H).
  assert (Hval : match kernel env, loc with
                 | Some _, GramLocals gdd gff gdf =>
                     mmd = _mmd_from_gramians env gdd gff gdf (biased cfg)
                 | None, FeatLocals phi_d phi_fr =>
                     mmd = _mmd_from_features env phi_d
                             (last_cols (n_batch_fr cfg) <$> phi_fr)
                             (biased cfg)
                 | _, _ => False
                 end).
  { destruct (kernel env), loc; simpl in Hmmd; try discriminate;
      by injection Hmmd as <-. }
  clear Hmmd. fold (callback_metrics env self mask_fr) in H.
  set (M := callback_metrics env self mask_fr) in *.
  destruct (decide (epoch = 0%nat)) as [_|_].
  - injection H as <-. eexists _, [], mmd. split; [done|]. split; [|done].
    by rewrite lookup_fmap, lookup_insert_eq.
  - destruct ml as [d|].
    + apply append_items_spec in H as (d' & -> & _ & Hin & _);
        [|apply NoDup_fst_map_to_list].
      destruct (Hin "mmd"%string mmd) as (vals & _ & Hd').
      { apply elem_of_map_to_list, lookup_insert_eq. }
      by exists d', vals, mmd.
    + apply append_items_unbound in H as [Hnil _].
      apply map_to_list_empty_iff in Hnil.
      by apply insert_non_empty in Hnil.
Qed.

(** X17.  In kernel mode, on an epoch that records metrics, the ['mmd']
    value appended is [_mmd_from_gramians] of the gramians the loss was built
    from.  With the unbiased estimator, line 152 has zeroed the diagonal of
    the sample gramian in place, so the metric is computed from that zeroed
    gramian and not from the kernel's own values; with the biased estimator
    it gets the gramian as the kernel returned it. *)
Theorem kernel_metric_reads_zeroed_gramian (env : Env) (cfg : Config)
    (epoch : nat) (st st' : State) (k : bmat → bmat → mat) :
  phi env = None → kernel env = Some k →
  epoch_body env cfg epoch st = Ok st' →
  metrics_due epoch (n_metrics cfg) = Ok true →
  ∃ mask_fr d vals G,
    torch_cat1 (mask_spikes_fr_list st') = Ok mask_fr
    ∧ metrics_list st' = Some d
    ∧ d !! "mmd"%string
      = Some (vals ++ [_mmd_from_gramians env
                         (k (mask_spikes env) (mask_spikes env)) G
                         (k (mask_spikes env) mask_fr) (biased cfg)])
    ∧ if biased cfg then G = k mask_fr mask_fr
      else ∀ i j, entry_at G i j
                  = if decide (i = j) then 0
                    else entry_at (k mask_fr mask_fr) i j.
Proof.
  intros Hphi Hk H Hdue.
  apply epoch_body_inv in H
    as (r & r_fr & mask_fr & lp & sur & due & _ & _ & _ & Hcat & _ & Hsur
        & _ & _ & Hdue' & Hrec & _).
  rewrite Hdue in Hdue'. injection Hdue' as <-.
  apply (surrogate_gramians env cfg _ mask_fr lp sur k Hphi Hk) in Hsur.
  apply metrics_record_mmd in Hrec as (d' & vals & mmd & Hml & Hd' & Hmmd).
  rewrite Hk, Hsur in Hmmd. subst mmd.
  exists mask_fr, d', vals,
    (if biased cfg then k mask_fr mask_fr
     else fill_diagonal_0 (k mask_fr mask_fr)).
  split; [done|]. split; [done|]. split; [done|].
  destruct (biased cfg); [done|]. apply fill_diagonal_0_entries.
Qed.

Lemma kernel_metric_reads_zeroed_gramian_witness :
  phi env0 = None ∧ kernel env0 = Some ones_kernel
  ∧ metrics_due 0 (n_metrics cfg0) = Ok true
  ∧ ∃ st', epoch_body env0 cfg0 0 init_state = Ok st'
      ∧ ∃ mask_fr d vals G,
          torch_cat1 (mask_spikes_fr_list st') = Ok mask_fr
          ∧ metrics_list st' = Some d
          ∧ d !! "mmd"%string
            = Some (vals ++ [_mmd_from_gramians env0
                               (ones_kernel (mask_spikes env0) (mask_spikes env0))
                               G (ones_kernel (mask_spikes env0) mask_fr)
                               (biased cfg0)])
          ∧ ∀ i j, entry_at G i j
                   = if decide (i = j) then 0
                     else entry_at (ones_kernel mask_fr mask_fr) i j.
Proof.
  split; [reflexivity|]. split; [reflexivity|]. split; [reflexivity|].
  destruct first_epoch_runs as [st' H]. exists st'. split; [exact H|].
  exact (kernel_metric_reads_zeroed_gramian env0 cfg0 0 init_state st'
           ones_kernel eq_refl eq_refl H eq_refl).
Defined.

(** ** The features that the metrics read *)

Lemma scale_rows (N : nat) (w : vec) (phi_fr : mat) :
  length w = N → Forall (λ row, length row = N) phi_fr →
  bzip2 Rmult phi_fr (as_row w)
  = Ok ((λ row, zip_with Rmult row w) <$> phi_fr).
Proof.
  intros Hw Hrows. unfold bzip2, as_row.
  assert (Hmap : mapM (λ row, bzip (λ x y, Ok (x * y)) row w) phi_fr
                 = Ok ((λ row, zip_with Rmult row w) <$> phi_fr)).
  { apply mapM_Forall_pure. eapply Forall_impl; [exact Hrows|].
    intros row Hrow. simpl. by rewrite bzip_same_length by congruence. }
  unfold bzip at 1.
  destruct (decide (length phi_fr = length [w])) as [Hone|Hne].
  - by destruct phi_fr as [|row [|row' phi_fr]].
  - by destruct phi_fr as [|row [|row' phi_fr]].
Qed.

Lemma weights_snoc (beta : R) (m : nat) (n : Z) :
  (0 <= n)%Z →
  ∃ w, weights beta m n = Ok w
    ∧ length w = (m * Z.to_nat n)%nat
    ∧ weights beta (S m) n = Ok (w ++ replicate (Z.to_nat n) (beta ^ m)).
Proof.
  intros Hn. destruct (weights_length beta m n Hn) as (w & Hw & Hlen).
  exists w. split; [done|]. split; [done|].
  unfold weights in *. destruct (Z.ltb_spec n 0); [lia|].
  injection Hw as <-.
  by rewrite seq_S, fmap_app, concat_app; csimpl; rewrite app_nil_r.
Qed.

Lemma last_cols_scaled (c : R) (L n : nat) (row w : vec) :
  (1 <= n)%nat → length row = (L + n)%nat → length w = L →
  last_cols (Z.of_nat n) (zip_with Rmult row (w ++ replicate n c))
  = (λ x, x * c) <$> last_cols (Z.of_nat n) row.
Proof.
  intros Hn Hrow Hw. unfold last_cols.
  destruct (Z.eqb_spec (Z.of_nat n) 0); [lia|].
  destruct (Z.ltb_spec (Z.of_nat n) 0); [lia|].
  rewrite Nat2Z.id, length_zip_with, length_app, length_replicate, Hrow, Hw.
  replace ((L + n) `min` (L + n) - n)%nat with L by lia.
  replace (L + n - n)%nat with L by lia.
  rewrite zip_with_drop, (drop_app_length' w _ L) by done.
  by rewrite zip_with_replicate_r_eq by (rewrite length_drop; lia).
Qed.

Lemma last_cols_of_weighted (beta : R) (m n F : nat) (phi_fr : mat) :
  (1 <= n)%nat → has_shape2 F (S m * n) phi_fr →
  ∃ wf, weighted_features beta (S m) (Z.of_nat n) phi_fr = Ok wf
    ∧ last_cols (Z.of_nat n) <$> wf
      = (λ row, (λ x, x * beta ^ m) <$> last_cols (Z.of_nat n) row) <$> phi_fr
    ∧ Forall (λ row, length row = n) (last_cols (Z.of_nat n) <$> wf).
Proof.
  intros Hn [_ Hrows].
  destruct (weights_snoc beta m (Z.of_nat n)) as (w & _ & Hlen & Hw); [lia|].
  rewrite Nat2Z.id in *. unfold weighted_features. rewrite Hw. simpl.
  rewrite (scale_rows (S m * n))
    by (done || rewrite length_app, length_replicate; lia).
  eexists. split; [reflexivity|].
  assert (Heq : last_cols (Z.of_nat n)
                <$> ((λ row, zip_with Rmult row (w ++ replicate n (beta ^ m)))
                     <$> phi_fr)
              = (λ row, (λ x, x * beta ^ m) <$> last_cols (Z.of_nat n) row)
                <$> phi_fr).
  { rewrite <- list_fmap_compose. apply Forall_fmap_ext.
    eapply Forall_impl; [exact Hrows|]. intros row Hrow. simpl in *.
    apply (last_cols_scaled _ (m * n)); [done|lia|done]. }
  split; [exact Heq|]. rewrite Heq. apply Forall_fmap.
  eapply Forall_impl; [exact Hrows|]. intros row Hrow. simpl in *.
  rewrite length_fmap. unfold last_cols.
  destruct (Z.eqb_spec (Z.of_nat n) 0); [lia|].
  destruct (Z.ltb_spec (Z.of_nat n) 0); [lia|].
  rewrite length_drop, Nat2Z.id. lia.
Qed.

(** X18.  With [m + 1] buffered minibatches of [n >= 1] trials each, the
    columns that line 198 takes as the features of the current sample,
    [phi_fr[:, -n_batch_fr:]], are the [n] columns of the newest minibatch
    after the weighting of line 133: each feature multiplied by [beta ^ m],
    the largest discount in the buffer.  For [beta <> 1] the recorded ['mmd']
    is therefore computed from scaled features. *)
Theorem feature_metric_reads_discounted_batch (beta : R) (m n F : nat)
    (phi_fr : mat) :
  (1 <= n)%nat → has_shape2 F (S m * n) phi_fr →
  ∃ wf, weighted_features beta (S m) (Z.of_nat n) phi_fr = Ok wf
    ∧ last_cols (Z.of_nat n) <$> wf
      = (λ row, (λ x, x * beta ^ m) <$> last_cols (Z.of_nat n) row) <$> phi_fr
    ∧ Forall (λ row, length row = n) (last_cols (Z.of_nat n) <$> wf).
Proof. apply last_cols_of_weighted. Qed.

Lemma feature_metric_reads_discounted_batch_witness :
  (1 <= 1)%nat
  ∧ ∃ wf, weighted_features (1 / 2) 3 1 [[4; 8; 16]] = Ok wf
      ∧ last_cols 1 <$> wf
        = (λ row, (λ x, x * (1 / 2) ^ 2) <$> last_cols 1 row) <$> [[4; 8; 16]].
Proof.
  assert (Hn : (1 <= 1)%nat) by lia. split; [exact Hn|].
  destruct (feature_metric_reads_discounted_batch (1 / 2) 2 1 1 [[4; 8; 16]] Hn)
    as (wf & Hwf & Hlast & _).
  - split; [reflexivity|]. repeat constructor.
  - exists wf. split; [exact Hwf|exact Hlast].
Defined.

(** ** The control variates: lines 171-180 *)












